(** * TomeRater: a shallow embedding of [TomeRater.py]

    The Python module defines three kinds of objects: [User], [Book] (with
    the subclasses [Fiction] and [NonFiction]) and the [TomeRater] engine.
    Objects are mutable and shared, and books are used as dictionary keys
    through [__hash__]/[__eq__] on [(title, isbn)].  The embedding therefore
    keeps an explicit store of book and user objects, addresses them by
    reference, and models a dictionary keyed by books as the insertion-
    ordered sequence of its entries, each entry remembering the hash its key
    had when it was inserted (as CPython does).

    Methods are functions in a small state-and-exception monad over the
    store; [print] appends to an output log. *)

From Stdlib Require Import ZArith QArith Ascii String List Lia Permutation Sorted.
From stdpp Require Import base tactics option list strings.

Local Open Scope string_scope.
Local Open Scope list_scope.
Local Open Scope Z_scope.

(* ===================================================================== *)
(** ** Regular expressions (the fragment used by [check_email_is_valid]) *)
(* ===================================================================== *)

Module Regex.

(** Abstract syntax of the patterns: character classes, concatenation,
    alternation and iteration.  [+] and [{m,n}] are derived forms. *)
Inductive re : Type :=
| Void : re
| Eps : re
| Class : (ascii -> bool) -> re
| Cat : re -> re -> re
| Alt : re -> re -> re
| Star : re -> re.

(** [r+] *)
Definition Plus (r : re) : re := Cat r (Star r).

(** [r?] *)
Definition Opt (r : re) : re := Alt r Eps.

(** [r{n}] *)
Fixpoint Times (n : nat) (r : re) : re :=
  match n with
  | O => Eps
  | S n' => Cat r (Times n' r)
  end.

(** [r{0,n}] *)
Fixpoint UpTo (n : nat) (r : re) : re :=
  match n with
  | O => Eps
  | S n' => Opt (Cat r (UpTo n' r))
  end.

(** [r{lo,hi}] *)
Definition Range (lo hi : nat) (r : re) : re :=
  Cat (Times lo r) (UpTo (hi - lo) r).

(** The words of a pattern. *)
Fixpoint Lang (r : re) (s : list ascii) : Prop :=
  match r with
  | Void => False
  | Eps => s = []
  | Class f => exists c, s = [c] /\ f c = true
  | Cat a b => exists s1 s2, s = s1 ++ s2 /\ Lang a s1 /\ Lang b s2
  | Alt a b => Lang a s \/ Lang b s
  | Star a => exists ss, s = concat ss /\ Forall (Lang a) ss
  end.

(** Matching by derivatives. *)
Fixpoint nullable (r : re) : bool :=
  match r with
  | Void => false
  | Eps => true
  | Class _ => false
  | Cat a b => nullable a && nullable b
  | Alt a b => nullable a || nullable b
  | Star _ => true
  end.

Fixpoint deriv (c : ascii) (r : re) : re :=
  match r with
  | Void => Void
  | Eps => Void
  | Class f => if f c then Eps else Void
  | Cat a b =>
      if nullable a then Alt (Cat (deriv c a) b) (deriv c b)
      else Cat (deriv c a) b
  | Alt a b => Alt (deriv c a) (deriv c b)
  | Star a => Cat (deriv c a) (Star a)
  end.

Fixpoint fullmatch (r : re) (s : list ascii) : bool :=
  match s with
  | [] => nullable r
  | c :: s' => fullmatch (deriv c r) s'
  end.

(** The line feed character. *)
Definition LF : ascii := ascii_of_nat 10.

(** [s] without its last character when that character is a line feed. *)
Fixpoint strip_final_newline (s : list ascii) : option (list ascii) :=
  match s with
  | [] => None
  | [c] => if Ascii.eqb c LF then Some [] else None
  | c :: s' => option_map (cons c) (strip_final_newline s')
  end.

(** [re.match('^' r '$', s)] without flags: the match starts at the
    beginning of [s], and [$] holds at the end of [s] and also just before
    a line feed that ends [s].  So there is a match when [r] matches the
    whole of [s], or the whole of [s] without its final line feed.  Only
    the truth value of the match object is used by the program. *)
Definition match_anchored (r : re) (s : list ascii) : bool :=
  fullmatch r s ||
  match strip_final_newline s with
  | Some s' => fullmatch r s'
  | None => false
  end.

End Regex.

(* ===================================================================== *)
(** ** Python values, objects and the store                               *)
(* ===================================================================== *)

(** References to [Book] and [User] objects (object identity). *)
Abbreviation bref := nat (only parsing).
Abbreviation uref := nat (only parsing).

(** The class of a book object: [Book] itself or one of its subclasses with
    the attributes the subclass adds. *)
Inductive book_kind : Type :=
| Plain
| IsFiction (author : string)
| IsNonFiction (subject level : string).

(** A [Book] object: the attributes set by [Book.__init__]. *)
Record book_obj : Type := mkBook {
  title : string;
  isbn : Z;
  price : Z;
  ratings : list Z;
  kind : book_kind
}.

(** [Book.__hash__] hashes the pair [(title, isbn)]; the hash of the pair is
    modelled by the pair itself. *)
Definition hash_t : Type := string * Z.

Definition hash_eqb (h1 h2 : hash_t) : bool :=
  String.eqb (fst h1) (fst h2) && Z.eqb (snd h1) (snd h2).

(** An entry of a dictionary keyed by books: the hash the key had when the
    entry was created, the key object, and the value. *)
Record entry (V : Type) : Type := mkEntry {
  e_hash : hash_t;
  e_key : bref;
  e_val : V
}.
Arguments mkEntry {V} _ _ _.
Arguments e_hash {V} _.
Arguments e_key {V} _.
Arguments e_val {V} _.

(** A dictionary keyed by books, in insertion order. *)
Definition bdict (V : Type) : Type := list (entry V).

(** A [User] object.  A rating is [None] or an integer. *)
Record user_obj : Type := mkUser {
  name : string;
  email : string;
  books : bdict (option Z)
}.

(** What a caller may pass where a book is expected. *)
Inductive pyval : Type :=
| PyNone
| PyBook (b : bref)
| PyOther (repr : string).

(** The store, the attributes of the [TomeRater] instance ([self.users],
    a dictionary keyed by strings, in insertion order, and [self.books]),
    and what has been printed. *)
Record world : Type := mkWorld {
  book_heap : list book_obj;
  user_heap : list user_obj;
  tr_users : list (string * uref);
  tr_books : bdict Z;
  stdout : list string
}.

Inductive exn : Type :=
| ValueError (msg : string)
| TypeError (msg : string)
| KeyError
| AttributeError (msg : string)
| Dangling.  (* no object at a reference: cannot happen in Python *)

Inductive res (A : Type) : Type :=
| Ok (a : A)
| Raise (e : exn).
Arguments Ok {A} _.
Arguments Raise {A} _.

(** Computations: they run on a world, end normally or by an exception, and
    leave a world either way. *)
Definition M (A : Type) : Type := world -> res A * world.

Definition ret {A} (a : A) : M A := fun w => (Ok a, w).

Definition bind {A B} (c : M A) (k : A -> M B) : M B :=
  fun w => match c w with
           | (Ok a, w') => k a w'
           | (Raise e, w') => (Raise e, w')
           end.

Definition raise {A} (e : exn) : M A := fun w => (Raise e, w).

Declare Scope py_scope.
Delimit Scope py_scope with py.
Notation "x <- c ;; k" := (bind c (fun x => k))
  (at level 100, c at next level, right associativity) : py_scope.
Notation "c ;; k" := (bind c (fun _ => k))
  (at level 100, right associativity) : py_scope.
Local Open Scope py_scope.

(** [try: body except ValueError: handler] *)
Definition try_except_ValueError {A} (body : M A) (handler : exn -> M A) : M A :=
  fun w => match body w with
           | (Raise (ValueError msg), w') => handler (ValueError msg) w'
           | r => r
           end.

Definition put_line (msg : string) (w : world) : world :=
  mkWorld (book_heap w) (user_heap w) (tr_users w) (tr_books w)
          (stdout w ++ [msg]).

Definition print (msg : string) : M unit := fun w => (Ok tt, put_line msg w).

Definition get_book (b : bref) : M book_obj :=
  fun w => match book_heap w !! b with
           | Some o => (Ok o, w)
           | None => (Raise Dangling, w)
           end.

Definition set_book (b : bref) (o : book_obj) : M unit :=
  fun w => (Ok tt, mkWorld (<[b:=o]> (book_heap w)) (user_heap w)
                           (tr_users w) (tr_books w) (stdout w)).

Definition get_user (u : uref) : M user_obj :=
  fun w => match user_heap w !! u with
           | Some o => (Ok o, w)
           | None => (Raise Dangling, w)
           end.

Definition set_user (u : uref) (o : user_obj) : M unit :=
  fun w => (Ok tt, mkWorld (book_heap w) (<[u:=o]> (user_heap w))
                           (tr_users w) (tr_books w) (stdout w)).

(** Allocation of a new object: it gets a reference that was not in use. *)
Definition new_book (o : book_obj) : M bref :=
  fun w => (Ok (length (book_heap w)),
            mkWorld (book_heap w ++ [o]) (user_heap w)
                    (tr_users w) (tr_books w) (stdout w)).

Definition new_user (o : user_obj) : M uref :=
  fun w => (Ok (length (user_heap w)),
            mkWorld (book_heap w) (user_heap w ++ [o])
                    (tr_users w) (tr_books w) (stdout w)).

Definition get_tr_users : M (list (string * uref)) := fun w => (Ok (tr_users w), w).
Definition get_tr_books : M (bdict Z) := fun w => (Ok (tr_books w), w).

Definition set_tr_users (us : list (string * uref)) : M unit :=
  fun w => (Ok tt, mkWorld (book_heap w) (user_heap w) us (tr_books w) (stdout w)).

Definition set_tr_books (bs : bdict Z) : M unit :=
  fun w => (Ok tt, mkWorld (book_heap w) (user_heap w) (tr_users w) bs (stdout w)).

Definition get_heap : M (list book_obj) := fun w => (Ok (book_heap w), w).

(** [for x in xs: body x] *)
Fixpoint for_each {A} (xs : list A) (body : A -> M unit) : M unit :=
  match xs with
  | [] => ret tt
  | x :: xs' => body x ;; for_each xs' body
  end.

(* ===================================================================== *)
(** ** Dictionaries keyed by books                                        *)
(* ===================================================================== *)

Definition book_hash (o : book_obj) : hash_t := (title o, isbn o).

(** [Book.__eq__] *)
Definition book_eq (o1 o2 : book_obj) : bool :=
  String.eqb (title o1) (title o2) && Z.eqb (isbn o1) (isbn o2).

(** Whether the entry [e] is the one a lookup of the key [k], whose hash is
    [hk], finds: the stored hash is [hk], and the stored key is [k] itself
    or equal to it by [__eq__] (evaluated on the objects as they are now). *)
Definition key_matches {V} (h : list book_obj) (hk : hash_t) (k : bref)
    (e : entry V) : bool :=
  hash_eqb (e_hash e) hk &&
  (Nat.eqb (e_key e) k ||
   match h !! e_key e, h !! k with
   | Some o1, Some o2 => book_eq o1 o2
   | _, _ => false
   end).

(** [d.get(k)]: the value of the first matching entry. *)
Fixpoint bd_get {V} (h : list book_obj) (hk : hash_t) (k : bref)
    (d : bdict V) : option V :=
  match d with
  | [] => None
  | e :: d' => if key_matches h hk k e then Some (e_val e)
               else bd_get h hk k d'
  end.

(** [d[k] = v]: the first matching entry gets the value [v] and keeps its
    key object; without a matching entry a new one is added at the end. *)
Fixpoint bd_set {V} (h : list book_obj) (hk : hash_t) (k : bref) (v : V)
    (d : bdict V) : bdict V :=
  match d with
  | [] => [mkEntry hk k v]
  | e :: d' => if key_matches h hk k e
               then mkEntry (e_hash e) (e_key e) v :: d'
               else e :: bd_set h hk k v d'
  end.

(** [k in d] *)
Definition bd_contains {V} (h : list book_obj) (hk : hash_t) (k : bref)
    (d : bdict V) : bool :=
  match bd_get h hk k d with Some _ => true | None => false end.

(** [d.keys()] and [d.items()] *)
Definition bd_keys {V} (d : bdict V) : list bref := map e_key d.
Definition bd_items {V} (d : bdict V) : list (bref * V) :=
  map (fun e => (e_key e, e_val e)) d.

(** Dictionaries keyed by strings ([self.users]). *)
Fixpoint sd_get {V} (k : string) (d : list (string * V)) : option V :=
  match d with
  | [] => None
  | (k', v) :: d' => if String.eqb k' k then Some v else sd_get k d'
  end.

Fixpoint sd_set {V} (k : string) (v : V) (d : list (string * V)) : list (string * V) :=
  match d with
  | [] => [(k, v)]
  | (k', v') :: d' => if String.eqb k' k then (k', v) :: d'
                      else (k', v') :: sd_set k v d'
  end.

Definition sd_contains {V} (k : string) (d : list (string * V)) : bool :=
  match sd_get k d with Some _ => true | None => false end.

(* ===================================================================== *)
(** ** Helpers standing for Python built-ins                              *)
(* ===================================================================== *)

(** [x / y] on integers (true division), kept exact. *)
Definition true_div (x y : Z) : Q := (inject_Z x / inject_Z y)%Q.

(** [x > y] on numbers. *)
Definition Qgtb (x y : Q) : bool := negb (Qle_bool x y).

(** [sum(l)] *)
Definition py_sum (l : list Z) : Z := fold_left Z.add l 0.

(** [l.sort(key=key, reverse=True)]: the sort is stable, and with
    [reverse=True] elements with equal keys still keep their order. *)
Fixpoint insert_desc {A} (key : A -> Z) (x : A) (l : list A) : list A :=
  match l with
  | [] => [x]
  | y :: l' => if key x <? key y then y :: insert_desc key x l'
               else x :: y :: l'
  end.

Definition sort_desc {A} (key : A -> Z) (l : list A) : list A :=
  fold_right (insert_desc key) [] l.

(** [l[:n]] for an integer [n]: a negative [n] counts from the end. *)
Definition slice_to {A} (n : Z) (l : list A) : list A :=
  if 0 <=? n then firstn (Z.to_nat n) l
  else firstn (Z.to_nat (Z.of_nat (length l) + n)) l.

(* ===================================================================== *)
(** ** class Book                                                         *)
(* ===================================================================== *)

Module Book.

(** [Book(title, isbn, price)] *)
Definition init (t : string) (i : Z) (p : Z) : book_obj := mkBook t i p [] Plain.

(** [rating in range(0, 5)] *)
Definition in_range_0_5 (rating : option Z) : bool :=
  match rating with
  | Some r => (0 <=? r) && (r <? 5)
  | None => false
  end.

Definition check_rating_is_valid (rating : option Z) : M unit :=
  if negb (in_range_0_5 rating) then raise (ValueError "Invalid rating")
  else ret tt.

Definition append_rating (self : bref) (rating : option Z) : M unit :=
  match rating with
  | Some r =>
      o <- get_book self ;;
      set_book self (mkBook (title o) (isbn o) (price o) (ratings o ++ [r]) (kind o))
  | None => ret tt   (* not reached: None does not pass the check *)
  end.

Definition add_rating (self : bref) (rating : option Z) : M unit :=
  try_except_ValueError
    (check_rating_is_valid rating ;;
     append_rating self rating)
    (fun e =>
       print "Invalid rating. Please enter a rating from 0 to 4" ;;
       raise e).

(** The property [average_rating], read from the object. *)
Definition average_rating (o : book_obj) : Q :=
  if negb (Nat.eqb (length (ratings o)) 0)
  then true_div (py_sum (ratings o)) (Z.of_nat (length (ratings o)))
  else 0%Q.

Definition get_isbn (o : book_obj) : Z := isbn o.
Definition get_title (o : book_obj) : string := title o.

(** [set_isbn] with an [int] argument. *)
Definition set_isbn (self : bref) (new_isbn : Z) : M unit :=
  o <- get_book self ;;
  set_book self (mkBook (title o) new_isbn (price o) (ratings o) (kind o)) ;;
  print "the isbn has been updated".

End Book.

(** [Fiction(title, author, isbn, price)] and
    [NonFiction(title, subject, level, isbn, price)] *)
Definition Fiction_init (t a : string) (i p : Z) : book_obj :=
  mkBook t i p [] (IsFiction a).
Definition NonFiction_init (t s l : string) (i p : Z) : book_obj :=
  mkBook t i p [] (IsNonFiction s l).

(* ===================================================================== *)
(** ** class User                                                         *)
(* ===================================================================== *)

Module User.
Import Regex.

Definition init (n e : string) : user_obj := mkUser n e [].

Definition between (lo hi c : ascii) : bool :=
  (nat_of_ascii lo <=? nat_of_ascii c)%nat && (nat_of_ascii c <=? nat_of_ascii hi)%nat.

Definition is_char (x c : ascii) : bool := Ascii.eqb c x.

(** [[a-z]], [[a-z0-9-]] and [[_a-z0-9-]] *)
Definition lower (c : ascii) : bool := between "a" "z" c.
Definition domain_char (c : ascii) : bool :=
  between "a" "z" c || between "0" "9" c || is_char "-" c.
Definition local_char (c : ascii) : bool :=
  is_char "_" c || between "a" "z" c || between "0" "9" c || is_char "-" c.

(** [^[_a-z0-9-]+(\.[_a-z0-9-]+)*@[a-z0-9-]+(\.[a-z0-9-]+)*(\.[a-z]{2,4})$]
    between its anchors. *)
Definition email_re : re :=
  Cat (Plus (Class local_char))
 (Cat (Star (Cat (Class (is_char ".")) (Plus (Class local_char))))
 (Cat (Class (is_char "@"))
 (Cat (Plus (Class domain_char))
 (Cat (Star (Cat (Class (is_char ".")) (Plus (Class domain_char))))
      (Cat (Class (is_char ".")) (Range 2 4 (Class lower))))))).

(** The truth value of the match object that [check_email_is_valid]
    returns. *)
Definition check_email_is_valid (e : string) : bool :=
  match_anchored email_re (list_ascii_of_string e).

Definition change_email (self : uref) (new_address : string) : M unit :=
  if check_email_is_valid new_address then
    u <- get_user self ;;
    set_user self (mkUser (name u) new_address (books u)) ;;
    print "User email has been updated"
  else raise (ValueError "Bad email syntax").

(** [if rating:] *)
Definition truthy (rating : option Z) : bool :=
  match rating with
  | Some r => negb (r =? 0)
  | None => false
  end.

Definition is_not_None (rating : option Z) : bool :=
  match rating with Some _ => true | None => false end.

(** [self.books[book] = rating] *)
Definition setitem_books (self : uref) (b : bref) (rating : option Z) : M unit :=
  u <- get_user self ;;
  o <- get_book b ;;
  h <- get_heap ;;
  set_user self (mkUser (name u) (email u)
                        (bd_set h (book_hash o) b rating (books u))).

Definition read_book (self : uref) (book : pyval) (rating : option Z) : M unit :=
  match book with
  | PyBook b =>
      try_except_ValueError
        (Book.check_rating_is_valid rating)
        (fun e =>
           if is_not_None rating then
             print "The rating must be either None or an integer from 0 to 4" ;;
             raise e
           else ret tt) ;;
      setitem_books self b rating ;;
      if truthy rating then Book.add_rating b rating else ret tt
  | _ => raise (TypeError "The book must be a Book object")
  end.

(** The loop of [get_average_rating]: the pair
    [(nb_of_ratings, sum_ratings)]. *)
Definition count_and_sum (items : list (bref * option Z)) : Z * Z :=
  fold_left (fun acc it =>
               match snd it with
               | None => acc
               | Some r => (fst acc + 1, snd acc + r)
               end) items (0, 0).

(** The property [get_average_rating], read from the object. *)
Definition get_average_rating (u : user_obj) : Q :=
  let '(nb_of_ratings, sum_ratings) := count_and_sum (bd_items (books u)) in
  if nb_of_ratings =? 0 then 0%Q
  else true_div sum_ratings nb_of_ratings.

Definition get_books_collection (u : user_obj) : list bref := bd_keys (books u).

End User.

(* ===================================================================== *)
(** ** class TomeRater                                                    *)
(* ===================================================================== *)

Module TomeRater.

(** [catalog_generator]: the keys of [self.books], in order. *)
Definition catalog_generator : M (list bref) :=
  d <- get_tr_books ;; ret (bd_keys d).

Fixpoint scan_isbn (i : Z) (catalog : list bref) : M bool :=
  match catalog with
  | [] => ret false
  | book :: rest =>
      o <- get_book book ;;
      if isbn o =? i then
        print "Book already exist" ;;
        ret true
      else scan_isbn i rest
  end.

Definition check_isbn_in_catalog (i : Z) : M bool :=
  catalog <- catalog_generator ;;
  scan_isbn i catalog.

(** [book in self.books.keys()] *)
Definition contains_book (b : bref) : M bool :=
  o <- get_book b ;;
  h <- get_heap ;;
  d <- get_tr_books ;;
  ret (bd_contains h (book_hash o) b d).

Definition check_book_in_catalog (book : pyval) : M bool :=
  match book with
  | PyBook b => contains_book b
  | _ => raise (TypeError "The argument must be a Book object")
  end.

(** The three constructors return the new object, or [None] (here the
    option [None]) when the isbn is in the catalog. *)
Definition create_book (t : string) (i : Z) (p : Z) : M (option bref) :=
  found <- check_isbn_in_catalog i ;;
  if negb found then
    b <- new_book (Book.init t i p) ;; ret (Some b)
  else ret None.

Definition create_novel (t a : string) (i : Z) (p : Z) : M (option bref) :=
  found <- check_isbn_in_catalog i ;;
  if negb found then
    b <- new_book (Fiction_init t a i p) ;; ret (Some b)
  else ret None.

Definition create_non_fiction (t s l : string) (i : Z) (p : Z) : M (option bref) :=
  found <- check_isbn_in_catalog i ;;
  if negb found then
    b <- new_book (NonFiction_init t s l i p) ;; ret (Some b)
  else ret None.

Definition is_existing_user (e : string) : M bool :=
  if negb (User.check_email_is_valid e) then
    raise (ValueError "Please enter a valid email")
  else
    us <- get_tr_users ;;
    ret (sd_contains e us).

(** [self.books[book] += 1] *)
Definition increment_books (b : bref) : M unit :=
  o <- get_book b ;;
  h <- get_heap ;;
  d <- get_tr_books ;;
  match bd_get h (book_hash o) b d with
  | Some n => set_tr_books (bd_set h (book_hash o) b (n + 1) d)
  | None => raise KeyError
  end.

(** [self.books[book] = 1] *)
Definition setitem_books (b : bref) (v : Z) : M unit :=
  o <- get_book b ;;
  h <- get_heap ;;
  d <- get_tr_books ;;
  set_tr_books (bd_set h (book_hash o) b v d).

Definition add_book_to_user (book : pyval) (e : string) (rating : option Z) : M unit :=
  existing <- is_existing_user e ;;
  if existing then
    us <- get_tr_users ;;
    match sd_get e us with
    | Some user =>
        User.read_book user book rating ;;
        in_catalog <- check_book_in_catalog book ;;
        match book with
        | PyBook b =>
            if in_catalog then increment_books b else setitem_books b 1
        | _ => ret tt   (* not reached: [read_book] has raised *)
        end
    | None => raise (AttributeError "'NoneType' object has no attribute 'read_book'")
    end
  else print ("No user with email " ++ e ++ "!").

(** [user_books] is [Some l] when the argument is a list, and [None] for
    any other argument (the default [None] included). *)
Definition add_user (n e : string) (user_books : option (list pyval)) : M unit :=
  if negb (User.check_email_is_valid e) then
    raise (ValueError "Please enter a valid email")
  else
    existing <- is_existing_user e ;;
    if negb existing then
      user <- new_user (User.init n e) ;;
      us <- get_tr_users ;;
      set_tr_users (sd_set e user us) ;;
      match user_books with
      | Some l =>
          for_each l (fun book =>
            match book with
            | PyBook _ => add_book_to_user book e None
            | PyNone =>
                print ("None is not a Book, it was not added to " ++ n ++ " book list")
            | PyOther repr =>
                print (repr ++ " is not a Book, it was not added to " ++ n ++ " book list")
            end)
      | None => ret tt
      end
    else print "User already exists".

(** [self.books[k]] *)
Definition getitem_books (k : bref) : M Z :=
  o <- get_book k ;;
  h <- get_heap ;;
  d <- get_tr_books ;;
  match bd_get h (book_hash o) k d with
  | Some n => ret n
  | None => raise KeyError
  end.

(** [max(keys, key=...)]: the first key with the largest value. *)
Fixpoint max_loop (keys : list bref) (best : bref) (best_val : Z) : M bref :=
  match keys with
  | [] => ret best
  | k :: rest =>
      v <- getitem_books k ;;
      if best_val <? v then max_loop rest k v
      else max_loop rest best best_val
  end.

Definition most_read_book : M bref :=
  d <- get_tr_books ;;
  match bd_keys d with
  | [] => raise (ValueError "max() arg is an empty sequence")
  | k :: rest =>
      v <- getitem_books k ;;
      max_loop rest k v
  end.

Fixpoint highest_loop (keys : list bref) (highest_rated_book : bref) : M bref :=
  match keys with
  | [] => ret highest_rated_book
  | book :: rest =>
      o <- get_book book ;;
      oh <- get_book highest_rated_book ;;
      if Qgtb (Book.average_rating o) (Book.average_rating oh)
      then highest_loop rest book
      else highest_loop rest highest_rated_book
  end.

Definition highest_rated_book : M bref :=
  reference <- new_book (Book.init "reference_book" 1000002 0) ;;
  d <- get_tr_books ;;
  highest_loop (bd_keys d) reference.

Fixpoint positive_loop (values : list uref) (most_positive_user : uref) : M uref :=
  match values with
  | [] => ret most_positive_user
  | user :: rest =>
      o <- get_user user ;;
      om <- get_user most_positive_user ;;
      if Qgtb (User.get_average_rating o) (User.get_average_rating om)
      then positive_loop rest user
      else positive_loop rest most_positive_user
  end.

Definition most_positive_user : M uref :=
  reference <- new_user (User.init "reference_user" "mail@domain.com") ;;
  us <- get_tr_users ;;
  positive_loop (map snd us) reference.

Definition get_n_most_read_books (n : Z) : M (list (bref * Z)) :=
  d <- get_tr_books ;;
  ret (slice_to n (sort_desc snd (bd_items d))).

(** [list(self.users.values())] with the key [len(user.books)] of each
    user, computed once per element as [sort(key=...)] does. *)
Fixpoint decorate_users (values : list uref) : M (list (uref * Z)) :=
  match values with
  | [] => ret []
  | user :: rest =>
      o <- get_user user ;;
      decorated <- decorate_users rest ;;
      ret ((user, Z.of_nat (length (books o))) :: decorated)
  end.

Definition get_n_most_prolific_readers (n : Z) : M (list uref) :=
  us <- get_tr_users ;;
  decorated <- decorate_users (map snd us) ;;
  ret (slice_to n (map fst (sort_desc snd decorated))).

(** The loop that fills [books_price_list]. *)
Fixpoint title_price_list (keys : list bref) : M (list (string * Z)) :=
  match keys with
  | [] => ret []
  | book :: rest =>
      o <- get_book book ;;
      pairs <- title_price_list rest ;;
      ret ((title o, price o) :: pairs)
  end.

Definition get_n_most_expensive_books (n : Z) : M (list (string * Z)) :=
  d <- get_tr_books ;;
  books_price_list <- title_price_list (bd_keys d) ;;
  ret (slice_to n (sort_desc snd books_price_list)).

(** The loop [worth_of_user += book.price]. *)
Fixpoint sum_prices (user_books : list bref) (worth_of_user : Z) : M Z :=
  match user_books with
  | [] => ret worth_of_user
  | book :: rest =>
      o <- get_book book ;;
      sum_prices rest (worth_of_user + price o)
  end.

(** The result is [Some] of the sum, or [None] for the call that only
    prints and returns nothing. *)
Definition get_worth_of_user (user_email : string) : M (option Z) :=
  us <- get_tr_users ;;
  if sd_contains user_email us then
    match sd_get user_email us with
    | Some user =>
        o <- get_user user ;;
        worth <- sum_prices (User.get_books_collection o) 0 ;;
        ret (Some worth)
    | None => raise (AttributeError "'NoneType' object has no attribute 'get_books_collection'")
    end
  else
    print (user_email ++ " is not an existing user email") ;;
    ret None.

End TomeRater.

(* ===================================================================== *)
(** ** Well-formed worlds and observations used in the statements         *)
(* ===================================================================== *)

(** Every key of a dictionary is the reference of an object in the store. *)
Definition keys_valid {V} (h : list book_obj) (d : bdict V) : bool :=
  forallb (fun e => (e_key e <? length h)%nat) d.

(** The average rating of the book at a reference. *)
Definition avg_at (h : list book_obj) (b : bref) : Q :=
  match h !! b with
  | Some o => Book.average_rating o
  | None => 0%Q
  end.

(** [self.books.get(b, 0)]: the read count of a book, 0 without an entry. *)
Definition read_count (w : world) (b : bref) : Z :=
  match book_heap w !! b with
  | Some o => default 0 (bd_get (book_heap w) (book_hash o) b (tr_books w))
  | None => 0
  end.

(** The number of user objects whose [books] has an entry for the book. *)
Definition readers (w : world) (b : bref) : nat :=
  match book_heap w !! b with
  | Some o =>
      length (List.filter (fun u => bd_contains (book_heap w) (book_hash o) b (books u))
                          (user_heap w))
  | None => O
  end.

(** The world before anything is created. *)
Definition empty_world : world := mkWorld [] [] [] [] [].

(** The email pattern in words: segments of allowed characters separated
    by single dots, an at sign, dotted domain segments, and a last segment
    of two to four lower-case letters. *)
Module EmailShape.

Definition segment (cls : ascii -> bool) (s : list ascii) : Prop :=
  s <> [] /\ Forall (fun c => cls c = true) s.

Definition dot : ascii := ascii_of_nat 46.
Definition at_sign : ascii := ascii_of_nat 64.

Definition join_dots (first : list ascii) (more : list (list ascii)) : list ascii :=
  first ++ concat (map (cons dot) more).

Definition dotted (cls : ascii -> bool) (s : list ascii) : Prop :=
  exists first more,
    segment cls first /\ Forall (segment cls) more /\ s = join_dots first more.

Definition tld (s : list ascii) : Prop :=
  Forall (fun c => User.lower c = true) s /\ (2 <= length s <= 4)%nat.

Definition email_shape (s : list ascii) : Prop :=
  exists loc dom t,
    dotted User.local_char loc /\ dotted User.domain_char dom /\ tld t /\
    s = loc ++ at_sign :: dom ++ dot :: t.

End EmailShape.

(** Two strings that differ at most in the case of their letters. *)
Definition to_lower (c : ascii) : ascii :=
  if User.between "A" "Z" c then ascii_of_nat (nat_of_ascii c + 32) else c.

Definition same_up_to_case (s1 s2 : string) : Prop :=
  map to_lower (list_ascii_of_string s1) = map to_lower (list_ascii_of_string s2).

(** Lookups read the store only through the titles and isbns of the books:
    two stores that agree on them give the same lookups. *)
Definition same_hashes (h h' : list book_obj) : Prop :=
  forall r, option_map book_hash (h !! r) = option_map book_hash (h' !! r).

(** The orders used to state what a sort returns. *)
Definition key_ge {A} (key : A -> Z) (a b : A) : Prop := key a >= key b.
Definition has_key {A} (key : A -> Z) (c : Z) (a : A) : bool := key a =? c.

(** A computation that leaves [self.users] as it is, however it ends. *)
Definition keeps_users {A} (c : M A) : Prop :=
  forall w, tr_users (snd (c w)) = tr_users w.

(** A rating that [read_book] accepts. *)
Definition valid_rating (rating : option Z) : Prop :=
  match rating with
  | None => True
  | Some r => 0 <= r <= 4
  end.

(** Every rating of every book object is an integer from 0 to 4. *)
Definition ratings_ok (h : list book_obj) : Prop :=
  Forall (fun o => Forall (fun r => 0 <= r <= 4) (ratings o)) h.

(** Every rating a user has recorded is [None] or an integer from 0 to 4. *)
Definition user_ratings_ok (uh : list user_obj) : Prop :=
  Forall (fun uo => Forall (fun e => valid_rating (e_val e)) (books uo)) uh.

(** Every read count of the catalog is at least 1. *)
Definition counts_pos (d : bdict Z) : Prop :=
  Forall (fun e => 1 <= e_val e) d.

(** Every email a user is registered under passes the validity check. *)
Definition emails_valid (us : list (string * uref)) : Prop :=
  Forall (fun p => User.check_email_is_valid (fst p) = true) us.

(** Every key of the dictionary is in the store and still has the title and
    isbn it was inserted with ([set_isbn] has not been used on a key). *)
Definition hashes_current {V} (h : list book_obj) (d : bdict V) : bool :=
  forallb (fun e => match h !! e_key e with
                    | Some o => hash_eqb (e_hash e) (book_hash o)
                    | None => false
                    end) d.

(** A computation that keeps a property of the world, however it ends. *)
Definition preserves {A} (P : world -> Prop) (c : M A) : Prop :=
  forall w, P w -> P (snd (c w)).

(** The sum of the prices of the books at the given references. *)
Definition total_price (h : list book_obj) (keys : list bref) : Z :=
  fold_right (fun b acc => match h !! b with
                           | Some o => price o + acc
                           | None => acc
                           end) 0 keys.

(** The number of books in the collection of the user at a reference. *)
Definition books_read (uh : list user_obj) (u : uref) : Z :=
  match uh !! u with
  | Some o => Z.of_nat (length (books o))
  | None => 0
  end.

(** The pair [(title, price)] of the book at a reference. *)
Definition title_price_at (h : list book_obj) (b : bref) : string * Z :=
  match h !! b with
  | Some o => (title o, price o)
  | None => ("", 0)
  end.

(** The average rating given by the user at a reference. *)
Definition user_avg_at (uh : list user_obj) (u : uref) : Q :=
  match uh !! u with
  | Some o => User.get_average_rating o
  | None => 0%Q
  end.

(** The book object after [read_book] has been called on it with a valid
    rating: the rating is appended unless it is [None] or 0. *)
Definition rated (o : book_obj) (rating : option Z) : book_obj :=
  match rating with
  | Some r => if r =? 0 then o
              else mkBook (title o) (isbn o) (price o) (ratings o ++ [r]) (kind o)
  | None => o
  end.

(** [isinstance(x, Book)] *)
Definition is_Book (x : pyval) : bool :=
  match x with
  | PyBook _ => true
  | _ => false
  end.

(** The elements of a list of initial books that are books, with their
    objects in the store. *)
Definition book_refs_valid (h : list book_obj) (l : list pyval) : Prop :=
  Forall (fun x => match x with
                   | PyBook b => (b < length h)%nat
                   | _ => True
                   end) l.

(** The number of entries of a user's [books] that hold a rating, and the
    sum of these ratings. *)
Definition nb_rated (d : bdict (option Z)) : Z :=
  Z.of_nat (length (List.filter (fun en => User.is_not_None (e_val en)) d)).


(** Some states of the engine, used as examples. *)

(** One book and one user, nothing read. *)
Definition world_fresh : world :=
  mkWorld [Book.init "Dune" 1001 20] [User.init "Alice" "alice@example.com"]
          [("alice@example.com", 0%nat)] [] [].

(** Alice has read Dune without rating it. *)
Definition world_unrated : world :=
  mkWorld [Book.init "Dune" 1001 20]
          [mkUser "Alice" "alice@example.com" [mkEntry ("Dune", 1001) 0%nat None]]
          [("alice@example.com", 0%nat)]
          [mkEntry ("Dune", 1001) 0%nat 1] [].

(** Two books with the same average rating, the second read twice. *)
Definition world_two_rated : world :=
  mkWorld [mkBook "Dune" 1001 20 [4] Plain; mkBook "Foo" 1002 5 [4; 4] Plain] [] []
          [mkEntry ("Dune", 1001) 0%nat 1; mkEntry ("Foo", 1002) 1%nat 2] [].

(** As [world_unrated], with a second book object equal to the first (same
    title and isbn, another price). *)
Definition world_copy : world :=
  mkWorld [Book.init "Dune" 1001 20; Book.init "Dune" 1001 8]
          [mkUser "Alice" "alice@example.com" [mkEntry ("Dune", 1001) 0%nat None]]
          [("alice@example.com", 0%nat)]
          [mkEntry ("Dune", 1001) 0%nat 1] [].

(** Alice and Bob, three books; Alice has read two of them, Bob one. *)
Definition world_library : world :=
  mkWorld [mkBook "Dune" 1001 20 [4] Plain; mkBook "Foo" 1002 5 [] Plain;
           mkBook "Emma" 1003 15 [2; 3] (IsFiction "Jane Austen")]
          [mkUser "Alice" "alice@example.com"
             [mkEntry ("Dune", 1001) 0%nat (Some 4); mkEntry ("Emma", 1003) 2%nat (Some 2)];
           mkUser "Bob" "bob@example.com" [mkEntry ("Emma", 1003) 2%nat (Some 3)]]
          [("alice@example.com", 0%nat); ("bob@example.com", 1%nat)]
          [mkEntry ("Dune", 1001) 0%nat 1; mkEntry ("Emma", 1003) 2%nat 2] [].

(** A book with three ratings. *)
Definition book_rated : book_obj := mkBook "Foo" 1002 5 [4; 3; 0] Plain.

(** A user with three books, one of them not rated. *)
Definition user_three_books : user_obj :=
  mkUser "Alice" "alice@example.com"
         [mkEntry ("Dune", 1001) 0%nat (Some 4);
          mkEntry ("Foo", 1002) 1%nat None;
          mkEntry ("Emma", 1003) 2%nat (Some 1)].

(* ===================================================================== *)
(** * Properties                                                          *)
(* ===================================================================== *)

(** ** The matcher decides the language of a pattern *)

Section RegexFacts.
Import Regex.

Lemma nullable_Lang (r : re) : nullable r = true <-> Lang r [].
Proof.
  induction r as [| | f | a IHa b IHb | a IHa b IHb | a IHa]; simpl.
  - split; [discriminate | tauto].
  - tauto.
  - split; [discriminate | intros (c & Hc & _); discriminate].
  - rewrite andb_true_iff, IHa, IHb. split.
    + intros [Ha Hb]. exists [], []. auto.
    + intros (s1 & s2 & Heq & Ha & Hb).
      symmetry in Heq. apply app_eq_nil in Heq as [-> ->]. auto.
  - rewrite orb_true_iff, IHa, IHb. tauto.
  - split; [intros _ | reflexivity]. exists []. split; [reflexivity | constructor].
Qed.

(** A non-empty word of [a*] starts with a non-empty word of [a]. *)
Lemma Lang_Star_cons (a : re) (c : ascii) (s : list ascii) :
  Lang (Star a) (c :: s) <->
  exists s1 s2, s = s1 ++ s2 /\ Lang a (c :: s1) /\ Lang (Star a) s2.
Proof.
  split.
  - intros (ss & Heq & Hall). revert Heq.
    induction Hall as [| x ss Hx Hall IH]; simpl; intros Heq; [discriminate |].
    destruct x as [| c' x]; simpl in Heq.
    + auto.
    + injection Heq as <- ->. exists x, (concat ss).
      split; [reflexivity |]. split; [assumption |].
      exists ss. auto.
  - intros (s1 & s2 & -> & H1 & ss & -> & Hall).
    exists ((c :: s1) :: ss). split; [reflexivity |]. constructor; assumption.
Qed.

Lemma deriv_Lang (r : re) (c : ascii) (s : list ascii) :
  Lang (deriv c r) s <-> Lang r (c :: s).
Proof.
  revert s.
  induction r as [| | f | a IHa b IHb | a IHa b IHb | a IHa]; intros s; simpl.
  - tauto.
  - split; [tauto | discriminate].
  - destruct (f c) eqn:Hf; simpl.
    + split.
      * intros ->. exists c. auto.
      * intros (c' & Heq & _). injection Heq as _ ->. reflexivity.
    + split; [tauto |].
      intros (c' & Heq & Hc'). injection Heq as -> _. congruence.
  - assert (Hcat : (exists s1 s2, s = s1 ++ s2 /\ Lang (deriv c a) s1 /\ Lang b s2) <->
                   (exists s1 s2, c :: s = (c :: s1) ++ s2 /\ Lang a (c :: s1) /\ Lang b s2)).
    { split; intros (s1 & s2 & Heq & H1 & H2); exists s1, s2.
      - subst s. rewrite IHa in H1. auto.
      - injection Heq as ->. rewrite IHa. auto. }
    destruct (nullable a) eqn:Hn; simpl.
    + rewrite Hcat, IHb. split.
      * intros [(s1 & s2 & Heq & H1 & H2) | Hb].
        -- exists (c :: s1), s2. auto.
        -- exists [], (c :: s). apply nullable_Lang in Hn. auto.
      * intros (s1 & s2 & Heq & H1 & H2). destruct s1 as [| c' s1].
        -- simpl in Heq. subst s2. right. assumption.
        -- left. injection Heq as <- ->. exists s1, s2. auto.
    + rewrite Hcat. split.
      * intros (s1 & s2 & Heq & H1 & H2). exists (c :: s1), s2. auto.
      * intros (s1 & s2 & Heq & H1 & H2). destruct s1 as [| c' s1].
        -- apply nullable_Lang in H1. congruence.
        -- injection Heq as <- ->. exists s1, s2. auto.
  - rewrite IHa, IHb. tauto.
  - change (Lang (Star a) (c :: s)) with
      (exists ss, c :: s = concat ss /\ Forall (Lang a) ss) in *.
    fold (Lang (Star a)).
    rewrite (Lang_Star_cons a c s).
    split; intros (s1 & s2 & Heq & H1 & H2); exists s1, s2;
      (split; [assumption |]); (split; [| assumption]); apply IHa; assumption.
Qed.

Lemma fullmatch_Lang (r : re) (s : list ascii) :
  fullmatch r s = true <-> Lang r s.
Proof.
  revert r. induction s as [| c s IH]; intros r; simpl.
  - apply nullable_Lang.
  - rewrite IH. apply deriv_Lang.
Qed.

Lemma strip_final_newline_Some (s s' : list ascii) :
  strip_final_newline s = Some s' <-> s = s' ++ [LF].
Proof.
  revert s'. induction s as [| c s IH]; intros s'.
  - simpl. split; [discriminate |]. destruct s'; discriminate.
  - destruct s as [| c2 s].
    + simpl. destruct (Ascii.eqb c LF) eqn:Hc.
      * apply Ascii.eqb_eq in Hc. subst c. split.
        -- intros [= <-]. reflexivity.
        -- intros Heq. destruct s' as [| x [| y s']]; simpl in Heq; try discriminate.
           reflexivity.
      * apply Ascii.eqb_neq in Hc. split; [discriminate |].
        intros Heq. destruct s' as [| x [| y s']]; simpl in Heq; try discriminate.
        injection Heq as ->. congruence.
    + change (strip_final_newline (c :: c2 :: s))
        with (option_map (cons c) (strip_final_newline (c2 :: s))).
      destruct (strip_final_newline (c2 :: s)) as [t |] eqn:Ht; simpl.
      * clear Ht. pose proof (proj1 (IH t) eq_refl) as Ht. split.
        -- intros [= <-]. simpl. rewrite Ht. reflexivity.
        -- intros Heq. destruct s' as [| x s']; simpl in Heq.
           ++ injection Heq as _ Hbad. discriminate.
           ++ injection Heq as <- Heq. rewrite Ht in Heq.
              apply app_inj_tail in Heq as [-> _]. reflexivity.
      * split; [discriminate |]. intros Heq.
        destruct s' as [| x s']; simpl in Heq.
        -- injection Heq as _ Hbad. discriminate.
        -- injection Heq as _ Heq. apply IH in Heq. discriminate.
Qed.

Lemma match_anchored_Lang (r : re) (s : list ascii) :
  match_anchored r s = true <->
  Lang r s \/ exists s', s = s' ++ [LF] /\ Lang r s'.
Proof.
  unfold match_anchored. rewrite orb_true_iff, fullmatch_Lang.
  split; intros [H | H]; auto.
  - destruct (strip_final_newline s) as [s' |] eqn:Hs; [| discriminate].
    right. exists s'. apply strip_final_newline_Some in Hs.
    apply fullmatch_Lang in H. auto.
  - destruct H as (s' & Hs & H). apply strip_final_newline_Some in Hs.
    rewrite Hs. right. apply fullmatch_Lang. assumption.
Qed.

End RegexFacts.

(** ** The email pattern, word by word *)

Section EmailFacts.
Import Regex EmailShape.

Lemma Lang_Cat (a b : re) (s : list ascii) :
  Lang (Cat a b) s <-> exists s1 s2, s = s1 ++ s2 /\ Lang a s1 /\ Lang b s2.
Proof. reflexivity. Qed.

Lemma Lang_Class (f : ascii -> bool) (s : list ascii) :
  Lang (Class f) s <-> exists c, s = [c] /\ f c = true.
Proof. reflexivity. Qed.

Lemma Lang_Star (a : re) (s : list ascii) :
  Lang (Star a) s <-> exists ss, s = concat ss /\ Forall (Lang a) ss.
Proof. reflexivity. Qed.

Lemma Lang_Star_Class (f : ascii -> bool) (s : list ascii) :
  Lang (Star (Class f)) s <-> Forall (fun c => f c = true) s.
Proof.
  rewrite Lang_Star. split.
  - intros (ss & -> & Hall). induction Hall as [| x ss Hx Hall IH]; simpl.
    + constructor.
    + destruct Hx as (c & -> & Hc). simpl. constructor; assumption.
  - intros Hall. exists (map (fun c => [c]) s). split.
    + induction s as [| c s IH]; simpl; [reflexivity |].
      inversion Hall; subst. f_equal. auto.
    + induction Hall as [| c s Hc Hall IH]; simpl; constructor; auto.
      exists c. auto.
Qed.

Lemma Lang_Plus_Class (f : ascii -> bool) (s : list ascii) :
  Lang (Plus (Class f)) s <-> segment f s.
Proof.
  unfold Plus, segment. rewrite Lang_Cat. split.
  - intros (s1 & s2 & -> & (c & -> & Hc) & Hs2).
    apply Lang_Star_Class in Hs2. split; [discriminate |].
    simpl. constructor; assumption.
  - intros [Hne Hall]. destruct s as [| c s]; [congruence |].
    inversion Hall; subst. exists [c], s. split; [reflexivity |].
    split; [exists c; auto | apply Lang_Star_Class; assumption].
Qed.

Lemma is_char_dot (c : ascii) : User.is_char "." c = true <-> c = dot.
Proof. unfold User.is_char. apply Ascii.eqb_eq. Qed.

Lemma is_char_at (c : ascii) : User.is_char "@" c = true <-> c = at_sign.
Proof. unfold User.is_char. apply Ascii.eqb_eq. Qed.

(** [(\.[...]+)*] *)
Lemma Lang_more_segments (f : ascii -> bool) (s : list ascii) :
  Lang (Star (Cat (Class (User.is_char ".")) (Plus (Class f)))) s <->
  exists more, Forall (segment f) more /\ s = concat (map (cons dot) more).
Proof.
  rewrite Lang_Star. split.
  - intros (ss & -> & Hall). induction Hall as [| x ss Hx Hall IH].
    + exists []. split; [constructor | reflexivity].
    + destruct IH as (more & Hmore & Heq).
      apply Lang_Cat in Hx as (s1 & s2 & -> & (c & -> & Hc) & Hs2).
      apply is_char_dot in Hc. subst c. apply Lang_Plus_Class in Hs2.
      exists (s2 :: more). split; [constructor; assumption |].
      simpl. rewrite Heq. reflexivity.
  - intros (more & Hmore & ->). exists (map (cons dot) more).
    split; [reflexivity |].
    induction Hmore as [| x more Hx Hmore IH]; cbn [map]; constructor; auto.
    apply Lang_Cat. exists [dot], x. split; [reflexivity |]. split.
    + exists dot. split; [reflexivity | apply is_char_dot; reflexivity].
    + apply Lang_Plus_Class. assumption.
Qed.

(** [[...]+(\.[...]+)*] *)
Lemma Lang_dotted (f : ascii -> bool) (s1 s2 : list ascii) :
  Lang (Plus (Class f)) s1 ->
  Lang (Star (Cat (Class (User.is_char ".")) (Plus (Class f)))) s2 ->
  dotted f (s1 ++ s2).
Proof.
  intros H1 H2. apply Lang_Plus_Class in H1.
  apply Lang_more_segments in H2 as (more & Hmore & ->).
  exists s1, more. auto.
Qed.

Lemma Lang_Opt_Class_tail (f : ascii -> bool) (r : re) (s : list ascii) :
  Lang (Opt (Cat (Class f) r)) s <->
  s = [] \/ exists c s', s = c :: s' /\ f c = true /\ Lang r s'.
Proof.
  unfold Opt. simpl. split.
  - intros [(s1 & s2 & -> & (c & -> & Hc) & Hr) | ->]; [right | left; reflexivity].
    exists c, s2. auto.
  - intros [-> | (c & s' & -> & Hc & Hr)]; [right; reflexivity | left].
    exists [c], s'. split; [reflexivity |]. split; [exists c; auto | assumption].
Qed.

(** [[a-z]{2,4}] *)
Lemma Lang_Range_2_4 (f : ascii -> bool) (s : list ascii) :
  Lang (Range 2 4 (Class f)) s <->
  Forall (fun c => f c = true) s /\ (2 <= length s <= 4)%nat.
Proof.
  unfold Range. change (4 - 2)%nat with 2%nat.
  change (Times 2 (Class f)) with (Cat (Class f) (Cat (Class f) Eps)).
  change (UpTo 2 (Class f))
    with (Opt (Cat (Class f) (Opt (Cat (Class f) Eps)))).
  rewrite Lang_Cat. split.
  - intros (s1 & s2 & -> & H1 & H2).
    apply Lang_Cat in H1 as (a & s1' & -> & (c1 & -> & Hc1) & H1).
    apply Lang_Cat in H1 as (b & s1'' & -> & (c2 & -> & Hc2) & ->).
    apply Lang_Opt_Class_tail in H2 as [-> | (c3 & s3 & -> & Hc3 & H3)].
    + simpl. split; [repeat constructor; assumption | lia].
    + apply Lang_Opt_Class_tail in H3 as [-> | (c4 & s4 & -> & Hc4 & ->)].
      * simpl. split; [repeat constructor; assumption | lia].
      * simpl. split; [repeat constructor; assumption | lia].
  - intros [Hall Hlen].
    destruct s as [| c1 [| c2 s]]; simpl in Hlen; try lia.
    inversion Hall as [| ? ? Hc1 Hall1]; subst.
    inversion Hall1 as [| ? ? Hc2 Hall2]; subst.
    exists [c1; c2], s. split; [reflexivity |]. split.
    + apply Lang_Cat. exists [c1], [c2]. split; [reflexivity |].
      split; [exists c1; auto |].
      apply Lang_Cat. exists [c2], []. split; [reflexivity |].
      split; [exists c2; auto | reflexivity].
    + apply Lang_Opt_Class_tail.
      destruct s as [| c3 s]; [left; reflexivity | right].
      inversion Hall2 as [| ? ? Hc3 Hall3]; subst.
      exists c3, s. split; [reflexivity |]. split; [assumption |].
      apply Lang_Opt_Class_tail.
      destruct s as [| c4 s]; [left; reflexivity | right].
      inversion Hall3 as [| ? ? Hc4 Hall4]; subst.
      exists c4, s. split; [reflexivity |]. split; [assumption |].
      destruct s; [reflexivity | simpl in Hlen; lia].
Qed.

Lemma email_re_Lang (s : list ascii) : Lang User.email_re s <-> email_shape s.
Proof.
  unfold User.email_re. split.
  - intros H.
    apply Lang_Cat in H as (l1 & r1 & -> & Hl1 & H).
    apply Lang_Cat in H as (l2 & r2 & -> & Hl2 & H).
    apply Lang_Cat in H as (a & r3 & -> & (c & -> & Hc) & H).
    apply Lang_Cat in H as (d1 & r4 & -> & Hd1 & H).
    apply Lang_Cat in H as (d2 & r5 & -> & Hd2 & H).
    apply Lang_Cat in H as (p & t & -> & (c' & -> & Hc') & Ht).
    apply is_char_at in Hc. apply is_char_dot in Hc'. subst c c'.
    apply Lang_Range_2_4 in Ht.
    exists (l1 ++ l2), (d1 ++ d2), t.
    split; [apply Lang_dotted; assumption |].
    split; [apply Lang_dotted; assumption |].
    split; [exact Ht |].
    simpl. rewrite <- !app_assoc. reflexivity.
  - intros (loc & dom & t & (l1 & lmore & Hl1 & Hlmore & ->) &
            (d1 & dmore & Hd1 & Hdmore & ->) & Ht & ->).
    unfold join_dots.
    apply Lang_Cat. exists l1, (concat (map (cons dot) lmore) ++
      at_sign :: (d1 ++ concat (map (cons dot) dmore)) ++ dot :: t).
    split; [rewrite <- app_assoc; reflexivity |].
    split; [apply Lang_Plus_Class; assumption |].
    apply Lang_Cat. eexists _, _. split; [reflexivity |].
    split; [apply Lang_more_segments; eauto |].
    apply Lang_Cat. exists [at_sign], ((d1 ++ concat (map (cons dot) dmore)) ++ dot :: t).
    split; [reflexivity |].
    split; [exists at_sign; split; [reflexivity | apply is_char_at; reflexivity] |].
    apply Lang_Cat. exists d1, (concat (map (cons dot) dmore) ++ dot :: t).
    split; [rewrite <- app_assoc; reflexivity |].
    split; [apply Lang_Plus_Class; assumption |].
    apply Lang_Cat. eexists _, _. split; [reflexivity |].
    split; [apply Lang_more_segments; eauto |].
    apply Lang_Cat. exists [dot], t. split; [reflexivity |].
    split; [exists dot; split; [reflexivity | apply is_char_dot; reflexivity] |].
    apply Lang_Range_2_4. exact Ht.
Qed.

End EmailFacts.

(** ** Email validity *)

Section EmailValidity.
Import Regex EmailShape.

Lemma class_not_upper (c : ascii) :
  User.local_char c = true \/ User.domain_char c = true \/ User.lower c = true \/
  c = dot \/ c = at_sign \/ c = LF ->
  User.between "A" "Z" c = false.
Proof.
  destruct c as [[] [] [] [] [] [] [] []]; vm_compute;
    intros [H | [H | [H | [H | [H | H]]]]]; congruence.
Qed.

Lemma segment_not_upper (f : ascii -> bool) (s : list ascii) :
  (forall c, f c = true -> User.between "A" "Z" c = false) ->
  segment f s -> Forall (fun c => User.between "A" "Z" c = false) s.
Proof.
  intros Hf [_ Hall]. induction Hall; constructor; auto.
Qed.

Lemma dotted_not_upper (f : ascii -> bool) (s : list ascii) :
  (forall c, f c = true -> User.between "A" "Z" c = false) ->
  dotted f s -> Forall (fun c => User.between "A" "Z" c = false) s.
Proof.
  intros Hf (first & more & Hfirst & Hmore & ->). unfold join_dots.
  apply Forall_app. split; [eapply segment_not_upper; eauto |].
  induction Hmore as [| x more Hx Hmore IH]; simpl; [constructor |].
  constructor; [apply class_not_upper; auto |].
  apply Forall_app. split; [eapply segment_not_upper; eauto | assumption].
Qed.

Lemma email_shape_not_upper (s : list ascii) :
  email_shape s -> Forall (fun c => User.between "A" "Z" c = false) s.
Proof.
  intros (loc & dom & t & Hloc & Hdom & [Ht _] & ->).
  apply Forall_app. split.
  { eapply dotted_not_upper; [| exact Hloc]. intros; apply class_not_upper; auto. }
  constructor; [apply class_not_upper; auto 6 |].
  apply Forall_app. split.
  { eapply dotted_not_upper; [| exact Hdom]. intros; apply class_not_upper; auto. }
  constructor; [apply class_not_upper; auto |].
  induction Ht; constructor; auto. apply class_not_upper; auto.
Qed.

Lemma to_lower_id (s : list ascii) :
  Forall (fun c => User.between "A" "Z" c = false) s -> map to_lower s = s.
Proof.
  induction 1 as [| c s Hc _ IH]; simpl; [reflexivity |].
  unfold to_lower at 1. rewrite Hc, IH. reflexivity.
Qed.

(** C7, as the code has it.  [check_email_is_valid] accepts exactly the
    strings made of a dotted local part over [_a-z0-9-], an at sign, a
    dotted domain over [a-z0-9-] and a last segment of two to four
    lower-case letters, possibly followed by one final line feed; and the
    check is case-sensitive: an accepted string has no upper-case letter. *)
Theorem check_email_is_valid_exact (e : string) :
  (User.check_email_is_valid e = true <->
   email_shape (list_ascii_of_string e) \/
   exists s, list_ascii_of_string e = s ++ [LF] /\ email_shape s) /\
  (User.check_email_is_valid e = true ->
   map to_lower (list_ascii_of_string e) = list_ascii_of_string e).
Proof.
  assert (Hiff : User.check_email_is_valid e = true <->
                 email_shape (list_ascii_of_string e) \/
                 exists s, list_ascii_of_string e = s ++ [LF] /\ email_shape s).
  { unfold User.check_email_is_valid. rewrite match_anchored_Lang.
    rewrite email_re_Lang. split; intros [H | (s & Hs & H)]; auto.
    - right. exists s. rewrite <- email_re_Lang. auto.
    - right. exists s. rewrite email_re_Lang. auto. }
  split; [exact Hiff |].
  intros H. apply Hiff in H. apply to_lower_id.
  destruct H as [H | (s & -> & H)].
  - apply email_shape_not_upper. assumption.
  - apply Forall_app. split; [apply email_shape_not_upper; assumption |].
    constructor; [apply class_not_upper; auto 7 | constructor].
Qed.

(** C7, as stated, fails: the check is not case-insensitive. *)
Lemma check_email_is_valid_case_counterexample :
  same_up_to_case "a@b.com" "A@b.com" /\
  User.check_email_is_valid "a@b.com" = true /\
  User.check_email_is_valid "A@b.com" = false.
Proof. repeat split; reflexivity. Qed.

End EmailValidity.

(** ** Dictionaries keyed by books *)

Ltac run :=
  unfold bind, ret, raise, print, get_book, set_book, get_user, set_user,
    new_book, new_user, get_tr_users, get_tr_books, set_tr_users,
    set_tr_books, get_heap, try_except_ValueError in *.

Section DictFacts.
Context {V : Type}.
Implicit Types (h : list book_obj) (hk : hash_t) (k : bref) (d : bdict V).

Lemma hash_eqb_refl hk : hash_eqb hk hk = true.
Proof.
  unfold hash_eqb. rewrite String.eqb_refl, Z.eqb_refl. reflexivity.
Qed.

Lemma key_matches_own h hk k (v : V) : key_matches h hk k (mkEntry hk k v) = true.
Proof.
  unfold key_matches. simpl. rewrite hash_eqb_refl, Nat.eqb_refl. reflexivity.
Qed.

Lemma key_matches_val h hk k (e : entry V) (v : V) :
  key_matches h hk k (mkEntry (e_hash e) (e_key e) v) = key_matches h hk k e.
Proof. reflexivity. Qed.

(** After [d[k] = v], [d[k]] is [v]. *)
Lemma bd_get_set_same h hk k (v : V) d :
  bd_get h hk k (bd_set h hk k v d) = Some v.
Proof.
  induction d as [| e d IH]; simpl.
  - rewrite key_matches_own. reflexivity.
  - destruct (key_matches h hk k e) eqn:He; simpl.
    + rewrite key_matches_val, He. reflexivity.
    + rewrite He. exact IH.
Qed.

(** [d[k] = v] on a key that is present keeps the number of entries. *)
Lemma bd_set_length_present h hk k (v : V) d :
  bd_contains h hk k d = true -> length (bd_set h hk k v d) = length d.
Proof.
  unfold bd_contains. induction d as [| e d IH]; simpl; [discriminate |].
  destruct (key_matches h hk k e); simpl; [reflexivity |].
  intros H. rewrite IH; auto.
Qed.

Lemma bd_set_length_absent h hk k (v : V) d :
  bd_contains h hk k d = false -> length (bd_set h hk k v d) = S (length d).
Proof.
  unfold bd_contains. induction d as [| e d IH]; simpl; [reflexivity |].
  destruct (key_matches h hk k e); simpl; [discriminate |].
  intros H. rewrite IH; auto.
Qed.

(** The keys, their order and their stored hashes survive [d[k] = v] on a
    key that is present. *)
Lemma bd_set_keys_present h hk k (v : V) d :
  bd_contains h hk k d = true -> bd_keys (bd_set h hk k v d) = bd_keys d.
Proof.
  unfold bd_contains, bd_keys. induction d as [| e d IH]; simpl; [discriminate |].
  destruct (key_matches h hk k e); simpl; [reflexivity |].
  intros H. rewrite IH; auto.
Qed.

Lemma bd_get_In h hk k d (v : V) :
  bd_get h hk k d = Some v -> exists e, In e d /\ e_val e = v.
Proof.
  induction d as [| e d IH]; simpl; [discriminate |].
  destruct (key_matches h hk k e).
  - intros [= <-]. exists e. auto.
  - intros H. destruct (IH H) as (e' & Hin & Hv). exists e'. auto.
Qed.

Lemma book_eq_hash (o1 o2 : book_obj) :
  book_eq o1 o2 = hash_eqb (book_hash o1) (book_hash o2).
Proof. reflexivity. Qed.

Lemma key_matches_same_hashes h h' hk k (e : entry V) :
  same_hashes h h' -> key_matches h hk k e = key_matches h' hk k e.
Proof.
  intros Hs. unfold key_matches. f_equal. f_equal.
  pose proof (Hs (e_key e)) as H1. pose proof (Hs k) as H2.
  revert H1 H2.
  destruct (h !! e_key e), (h' !! e_key e), (h !! k), (h' !! k);
    cbn [option_map]; intros H1 H2; try discriminate; try reflexivity.
  rewrite !book_eq_hash. congruence.
Qed.

Lemma bd_get_same_hashes h h' hk k d :
  same_hashes h h' -> bd_get h hk k d = bd_get h' hk k d.
Proof.
  intros Hs. induction d as [| e d IH]; simpl; [reflexivity |].
  rewrite (key_matches_same_hashes h h' hk k e Hs), IH. reflexivity.
Qed.

Lemma bd_set_same_hashes h h' hk k (v : V) d :
  same_hashes h h' -> bd_set h hk k v d = bd_set h' hk k v d.
Proof.
  intros Hs. induction d as [| e d IH]; simpl; [reflexivity |].
  rewrite (key_matches_same_hashes h h' hk k e Hs), IH. reflexivity.
Qed.

End DictFacts.

(** Appending a rating to a book leaves every title and isbn as it was. *)
Lemma same_hashes_rate (h : list book_obj) (b : bref) (o : book_obj) (r : Z) :
  h !! b = Some o ->
  same_hashes h (<[b := mkBook (title o) (isbn o) (price o) (ratings o ++ [r]) (kind o)]> h).
Proof.
  intros Hb r'. destruct (decide (b = r')) as [<- | Hne].
  - rewrite list_lookup_insert_eq by (eapply lookup_lt_Some; eauto).
    rewrite Hb. reflexivity.
  - rewrite list_lookup_insert_ne by assumption. reflexivity.
Qed.

(** ** Reading a book *)

Lemma in_range_0_5_spec (r : Z) :
  Book.in_range_0_5 (Some r) = true <-> 0 <= r <= 4.
Proof.
  unfold Book.in_range_0_5. rewrite andb_true_iff, Z.leb_le, Z.ltb_lt. lia.
Qed.

(** C1.  [read_book] with a rating that is an integer outside 0..4 raises
    the [ValueError] of the rating check and changes no object: the user's
    [books] and the book's [ratings] are as before (only a line is
    printed). *)
Theorem read_book_invalid_rating (u : uref) (b : bref) (r : Z) (w : world) :
  ~ (0 <= r <= 4) ->
  exists w',
    User.read_book u (PyBook b) (Some r) w = (Raise (ValueError "Invalid rating"), w') /\
    w' = put_line "The rating must be either None or an integer from 0 to 4" w /\
    user_heap w' = user_heap w /\ book_heap w' = book_heap w /\
    tr_users w' = tr_users w /\ tr_books w' = tr_books w.
Proof.
  intros Hr. eexists. split; [| repeat split].
  unfold User.read_book, Book.check_rating_is_valid.
  destruct (Book.in_range_0_5 (Some r)) eqn:Hin.
  - apply in_range_0_5_spec in Hin. contradiction.
  - reflexivity.
Qed.

Lemma read_book_invalid_rating_witness :
  ~ (0 <= 5 <= 4) /\
  exists w',
    User.read_book 0%nat (PyBook 0%nat) (Some 5)
      (mkWorld [Book.init "Dune" 1001 20] [User.init "Alice" "alice@example.com"] [] [] [])
    = (Raise (ValueError "Invalid rating"), w') /\
    w' = put_line "The rating must be either None or an integer from 0 to 4"
           (mkWorld [Book.init "Dune" 1001 20] [User.init "Alice" "alice@example.com"] [] [] []) /\
    user_heap w' = [User.init "Alice" "alice@example.com"] /\
    book_heap w' = [Book.init "Dune" 1001 20] /\
    tr_users w' = [] /\ tr_books w' = [].
Proof.
  split; [lia |].
  apply (read_book_invalid_rating 0%nat 0%nat 5
           (mkWorld [Book.init "Dune" 1001 20] [User.init "Alice" "alice@example.com"] [] [] [])).
  lia.
Defined.





Lemma nb_rated_nonneg (d : bdict (option Z)) : 0 <= nb_rated d.
Proof. unfold nb_rated. lia. Qed.






(** Alice has rated two books 4 and 2; after she rates a third book 0 her
    three ratings sum to 6, and the book she rated has no rating. *)
Example read_book_zero_counts :
  User.count_and_sum
    (bd_items (books (default (User.init "" "")
                        (user_heap (snd (User.read_book 0%nat (PyBook 1%nat) (Some 0)
                                           world_library)) !! 0%nat))))
  = (3, 6) /\
  option_map ratings
    (book_heap (snd (User.read_book 0%nat (PyBook 1%nat) (Some 0) world_library)) !! 1%nat)
  = Some [].
Proof. split; reflexivity. Qed.

(** ** Users of the engine *)

Lemma sd_contains_get {V} (k : string) (d : list (string * V)) :
  sd_contains k d = match sd_get k d with Some _ => true | None => false end.
Proof. reflexivity. Qed.

(** C3, as the code has it.  With no user registered under [e],
    [add_book_to_user] prints that there is no such user, raises nothing and
    changes nothing, provided [e] has the syntax of an email address; for any
    other [e] the validity check in [is_existing_user] raises [ValueError]
    (and nothing changes either). *)
Theorem add_book_to_user_unknown (w : world) (book : pyval) (e : string)
    (rating : option Z) :
  sd_get e (tr_users w) = None ->
  TomeRater.add_book_to_user book e rating w =
    if User.check_email_is_valid e
    then (Ok tt, put_line ("No user with email " ++ e ++ "!") w)
    else (Raise (ValueError "Please enter a valid email"), w).
Proof.
  intros Hnone.
  unfold TomeRater.add_book_to_user, TomeRater.is_existing_user. run.
  destruct (User.check_email_is_valid e); simpl; [| reflexivity].
  rewrite sd_contains_get, Hnone. reflexivity.
Qed.

Lemma add_book_to_user_unknown_witness :
  TomeRater.add_book_to_user (PyBook 0%nat) "bob@example.com" (Some 3)
    (mkWorld [Book.init "Dune" 1001 20] [] [] [] [])
  = (Ok tt, mkWorld [Book.init "Dune" 1001 20] [] [] []
                    ["No user with email bob@example.com!"]).
Proof.
  apply (add_book_to_user_unknown
           (mkWorld [Book.init "Dune" 1001 20] [] [] [] [])
           (PyBook 0%nat) "bob@example.com" (Some 3)).
  reflexivity.
Defined.

(** C3, as stated, fails: no user is registered under ["bob"], and the call
    raises. *)
Lemma add_book_to_user_unknown_counterexample :
  sd_get "bob" (tr_users empty_world) = None /\
  TomeRater.add_book_to_user (PyBook 0%nat) "bob" None empty_world
  = (Raise (ValueError "Please enter a valid email"), empty_world).
Proof. split; reflexivity. Qed.

(** C6.  When a user is registered under [e], [add_user] with the email [e]
    changes neither the registered users, nor any user or book object, nor
    the catalog: the user registered under [e] is the one that was, in the
    state it had.  The call prints that the user exists (or, for an [e]
    without the syntax of an email address, raises [ValueError]). *)
Theorem add_user_existing (w : world) (n e : string)
    (user_books : option (list pyval)) (u : uref) :
  sd_get e (tr_users w) = Some u ->
  exists r w',
    TomeRater.add_user n e user_books w = (r, w') /\
    tr_users w' = tr_users w /\ user_heap w' = user_heap w /\
    book_heap w' = book_heap w /\ tr_books w' = tr_books w /\
    sd_get e (tr_users w') = Some u /\
    (User.check_email_is_valid e = true ->
     r = Ok tt /\ w' = put_line "User already exists" w) /\
    (User.check_email_is_valid e = false ->
     r = Raise (ValueError "Please enter a valid email") /\ w' = w).
Proof.
  intros Hu.
  unfold TomeRater.add_user, TomeRater.is_existing_user. run.
  destruct (User.check_email_is_valid e); simpl.
  - rewrite sd_contains_get, Hu. simpl.
    eexists _, _. split; [reflexivity |]. simpl.
    repeat split; auto; discriminate.
  - eexists _, _. split; [reflexivity |].
    repeat split; auto; discriminate.
Qed.

Lemma add_user_existing_witness :
  exists r w',
    TomeRater.add_user "Mallory" "alice@example.com" (Some [PyBook 0%nat])
      (mkWorld [Book.init "Dune" 1001 20] [User.init "Alice" "alice@example.com"]
               [("alice@example.com", 0%nat)] [] [])
    = (r, w') /\
    tr_users w' = [("alice@example.com", 0%nat)] /\
    user_heap w' = [User.init "Alice" "alice@example.com"] /\
    book_heap w' = [Book.init "Dune" 1001 20] /\ tr_books w' = [] /\
    sd_get "alice@example.com" (tr_users w') = Some 0%nat /\
    (User.check_email_is_valid "alice@example.com" = true ->
     r = Ok tt /\
     w' = put_line "User already exists"
            (mkWorld [Book.init "Dune" 1001 20] [User.init "Alice" "alice@example.com"]
                     [("alice@example.com", 0%nat)] [] [])) /\
    (User.check_email_is_valid "alice@example.com" = false ->
     r = Raise (ValueError "Please enter a valid email") /\
     w' = mkWorld [Book.init "Dune" 1001 20] [User.init "Alice" "alice@example.com"]
                  [("alice@example.com", 0%nat)] [] []).
Proof.
  apply (add_user_existing
           (mkWorld [Book.init "Dune" 1001 20] [User.init "Alice" "alice@example.com"]
                    [("alice@example.com", 0%nat)] [] [])
           "Mallory" "alice@example.com" (Some [PyBook 0%nat]) 0%nat).
  reflexivity.
Defined.

(** ** The catalog *)

Lemma keys_valid_lookup {V} (h : list book_obj) (d : bdict V) (e : entry V) :
  keys_valid h d = true -> In e d -> exists o, h !! e_key e = Some o.
Proof.
  unfold keys_valid. rewrite forallb_forall. intros Hall Hin.
  specialize (Hall e Hin). apply Nat.ltb_lt in Hall.
  apply lookup_lt_is_Some in Hall. exact Hall.
Qed.

Lemma scan_isbn_found (i : Z) (catalog : list bref) (w : world) :
  Forall (fun k => exists o, book_heap w !! k = Some o) catalog ->
  Exists (fun k => exists o, book_heap w !! k = Some o /\ isbn o = i) catalog ->
  TomeRater.scan_isbn i catalog w = (Ok true, put_line "Book already exist" w).
Proof.
  intros Hall. induction Hall as [| k catalog [o Ho] Hall IH]; intros Hex.
  - inversion Hex.
  - simpl. run. rewrite Ho. destruct (isbn o =? i) eqn:Hi; [reflexivity |].
    apply IH. inversion Hex as [? ? (o' & Ho' & Hi') | ? ? Hrest]; subst; [| assumption].
    rewrite Ho in Ho'. injection Ho' as <-. apply Z.eqb_neq in Hi. contradiction.
Qed.

Lemma check_isbn_in_catalog_found (w : world) (i : Z) (e : entry Z) (o : book_obj) :
  keys_valid (book_heap w) (tr_books w) = true ->
  In e (tr_books w) ->
  book_heap w !! e_key e = Some o ->
  isbn o = i ->
  TomeRater.check_isbn_in_catalog i w = (Ok true, put_line "Book already exist" w).
Proof.
  intros Hwf Hin Ho Hi.
  unfold TomeRater.check_isbn_in_catalog, TomeRater.catalog_generator. run.
  apply scan_isbn_found.
  - apply List.Forall_forall. intros k Hk. unfold bd_keys in Hk.
    apply in_map_iff in Hk as (e' & <- & Hin'). eapply keys_valid_lookup; eauto.
  - apply List.Exists_exists. exists (e_key e). split.
    + unfold bd_keys. apply in_map. assumption.
    + exists o. auto.
Qed.

(** C5.  When some book of the catalog has the isbn [i], [create_book],
    [create_novel] and [create_non_fiction] called with [i] return [None]
    and change nothing (a line is printed), whatever the title asked for:
    the check compares isbns only. *)
Theorem create_existing_isbn (w : world) (i : Z) (e : entry Z) (o : book_obj)
    (t a s l : string) (p : Z) :
  keys_valid (book_heap w) (tr_books w) = true ->
  In e (tr_books w) ->
  book_heap w !! e_key e = Some o ->
  isbn o = i ->
  TomeRater.create_book t i p w = (Ok None, put_line "Book already exist" w) /\
  TomeRater.create_novel t a i p w = (Ok None, put_line "Book already exist" w) /\
  TomeRater.create_non_fiction t s l i p w = (Ok None, put_line "Book already exist" w) /\
  tr_books (put_line "Book already exist" w) = tr_books w /\
  book_heap (put_line "Book already exist" w) = book_heap w.
Proof.
  intros Hwf Hin Ho Hi.
  pose proof (check_isbn_in_catalog_found w i e o Hwf Hin Ho Hi) as Hc.
  unfold TomeRater.create_book, TomeRater.create_novel, TomeRater.create_non_fiction.
  unfold bind at 1 3 5. rewrite Hc. simpl. repeat split; reflexivity.
Qed.

Lemma create_existing_isbn_witness :
  TomeRater.create_book "Dune Messiah" 1001 25
    (mkWorld [Book.init "Dune" 1001 20] [] [] [mkEntry ("Dune", 1001) 0%nat 1] [])
  = (Ok None,
     mkWorld [Book.init "Dune" 1001 20] [] [] [mkEntry ("Dune", 1001) 0%nat 1]
             ["Book already exist"]).
Proof.
  apply (create_existing_isbn
           (mkWorld [Book.init "Dune" 1001 20] [] [] [mkEntry ("Dune", 1001) 0%nat 1] [])
           1001 (mkEntry ("Dune", 1001) 0%nat 1) (Book.init "Dune" 1001 20)
           "Dune Messiah" "Frank Herbert" "Ecology" "advanced" 25);
    [reflexivity | left; reflexivity | reflexivity | reflexivity].
Defined.

(** C9.  On an empty catalog [most_read_book] raises the [ValueError] of
    [max] on an empty sequence (the text of its message depends on the
    version of Python) and changes nothing, whereas [highest_rated_book]
    returns its reference book, and [most_positive_user] (with no user
    registered) its reference user. *)
Theorem most_read_book_empty (w : world) :
  tr_books w = [] ->
  (exists msg, TomeRater.most_read_book w = (Raise (ValueError msg), w)) /\
  fst (TomeRater.highest_rated_book w) = Ok (length (book_heap w)) /\
  (tr_users w = [] -> fst (TomeRater.most_positive_user w) = Ok (length (user_heap w))).
Proof.
  intros Hb. split; [| split].
  - eexists. unfold TomeRater.most_read_book. run. rewrite Hb. reflexivity.
  - unfold TomeRater.highest_rated_book. run. simpl. rewrite Hb. reflexivity.
  - intros Hu. unfold TomeRater.most_positive_user. run. simpl. rewrite Hu. reflexivity.
Qed.

Lemma most_read_book_empty_witness :
  (exists msg, TomeRater.most_read_book empty_world = (Raise (ValueError msg), empty_world)) /\
  fst (TomeRater.highest_rated_book empty_world) = Ok 0%nat /\
  (tr_users empty_world = [] -> fst (TomeRater.most_positive_user empty_world) = Ok 0%nat).
Proof.
  apply (most_read_book_empty empty_world). reflexivity.
Defined.

(** ** The highest rated book *)

Lemma Qgtb_true (x y : Q) : Qgtb x y = true <-> (y < x)%Q.
Proof.
  unfold Qgtb. rewrite negb_true_iff. split.
  - intros H. apply Qnot_le_lt. intros Hle. apply Qle_bool_iff in Hle. congruence.
  - intros H. destruct (Qle_bool x y) eqn:E; [| reflexivity].
    apply Qle_bool_iff in E. apply Qlt_not_le in H. contradiction.
Qed.

Lemma Qgtb_false (x y : Q) : Qgtb x y = false <-> (x <= y)%Q.
Proof.
  unfold Qgtb. rewrite negb_false_iff. apply Qle_bool_iff.
Qed.

(** What the loop of [highest_rated_book] returns, starting from [best]:
    [best] itself when no key has a larger average, and otherwise the first
    key whose average is the largest. *)
Lemma highest_loop_spec (w : world) (keys : list bref) :
  Forall (fun k => exists o, book_heap w !! k = Some o) keys ->
  forall best, (exists o, book_heap w !! best = Some o) ->
  exists r,
    TomeRater.highest_loop keys best w = (Ok r, w) /\
    ((r = best /\
      forall k, In k keys -> (avg_at (book_heap w) k <= avg_at (book_heap w) best)%Q) \/
     (exists i,
        keys !! i = Some r /\
        (avg_at (book_heap w) best < avg_at (book_heap w) r)%Q /\
        (forall j k, (j < i)%nat -> keys !! j = Some k ->
                     (avg_at (book_heap w) k < avg_at (book_heap w) r)%Q) /\
        (forall k, In k keys -> (avg_at (book_heap w) k <= avg_at (book_heap w) r)%Q))).
Proof.
  induction 1 as [| k keys [o Ho] Hall IH]; intros best [ob Hob].
  - exists best. split; [reflexivity |]. left. split; [reflexivity |].
    intros k [].
  - simpl. run. rewrite Ho, Hob.
    assert (Hk : avg_at (book_heap w) k = Book.average_rating o)
      by (unfold avg_at; rewrite Ho; reflexivity).
    assert (Hb : avg_at (book_heap w) best = Book.average_rating ob)
      by (unfold avg_at; rewrite Hob; reflexivity).
    destruct (Qgtb (Book.average_rating o) (Book.average_rating ob)) eqn:Hcmp.
    + apply Qgtb_true in Hcmp. rewrite <- Hk, <- Hb in Hcmp.
      destruct (IH k (ex_intro _ o Ho)) as (r & Hrun & Hr).
      exists r. split; [exact Hrun |]. right.
      destruct Hr as [[-> Hle] | (i & Hi & Hlt & Hbefore & Hle)].
      * exists O. split; [reflexivity |]. split; [exact Hcmp |].
        split; [intros j k' Hj; lia |].
        intros k' [<- | Hin]; [apply Qle_refl | auto].
      * exists (S i). split; [exact Hi |].
        split; [eapply Qlt_trans; eauto |].
        split.
        -- intros [| j] k' Hj Hk'; simpl in Hk'.
           ++ injection Hk' as <-. exact Hlt.
           ++ apply (Hbefore j k'); [lia | exact Hk'].
        -- intros k' [<- | Hin]; [apply Qlt_le_weak; exact Hlt | auto].
    + apply Qgtb_false in Hcmp. rewrite <- Hk, <- Hb in Hcmp.
      destruct (IH best (ex_intro _ ob Hob)) as (r & Hrun & Hr).
      exists r. split; [exact Hrun |].
      destruct Hr as [[-> Hle] | (i & Hi & Hlt & Hbefore & Hle)].
      * left. split; [reflexivity |].
        intros k' [<- | Hin]; [exact Hcmp | auto].
      * right. exists (S i). split; [exact Hi |]. split; [exact Hlt |].
        split.
        -- intros [| j] k' Hj Hk'; simpl in Hk'.
           ++ injection Hk' as <-. eapply Qle_lt_trans; eauto.
           ++ apply (Hbefore j k'); [lia | exact Hk'].
        -- intros k' [<- | Hin].
           ++ apply Qlt_le_weak. eapply Qle_lt_trans; eauto.
           ++ auto.
Qed.

Lemma avg_at_app (h : list book_obj) (o : book_obj) (k : bref) :
  (k < length h)%nat -> avg_at (h ++ [o]) k = avg_at h k.
Proof.
  intros Hk. unfold avg_at. rewrite lookup_app_l by exact Hk. reflexivity.
Qed.

Lemma keys_valid_In {V} (h : list book_obj) (d : bdict V) (k : bref) :
  keys_valid h d = true -> In k (bd_keys d) -> (k < length h)%nat.
Proof.
  unfold keys_valid, bd_keys. rewrite forallb_forall. intros Hall Hin.
  apply in_map_iff in Hin as (e & <- & Hin). apply Nat.ltb_lt. auto.
Qed.

(** C2, as the code has it.  [highest_rated_book] creates a reference book
    without ratings and returns it unless some book of the catalog has an
    average rating above 0; in that case it returns the first book of the
    catalog, in the order of [self.books], whose average rating is the
    largest.  The reference book is a new object, not a key of the catalog,
    and its average rating is 0.  (Averages are compared exactly.) *)
Theorem highest_rated_book_spec (w : world) :
  keys_valid (book_heap w) (tr_books w) = true ->
  exists r,
    TomeRater.highest_rated_book w =
      (Ok r, mkWorld (book_heap w ++ [Book.init "reference_book" 1000002 0])
                     (user_heap w) (tr_users w) (tr_books w) (stdout w)) /\
    ((r = length (book_heap w) /\
      ~ In r (bd_keys (tr_books w)) /\
      avg_at (book_heap w ++ [Book.init "reference_book" 1000002 0]) r = 0%Q /\
      forall k, In k (bd_keys (tr_books w)) -> (avg_at (book_heap w) k <= 0)%Q) \/
     (exists i,
        bd_keys (tr_books w) !! i = Some r /\
        (0 < avg_at (book_heap w) r)%Q /\
        (forall j k, (j < i)%nat -> bd_keys (tr_books w) !! j = Some k ->
                     (avg_at (book_heap w) k < avg_at (book_heap w) r)%Q) /\
        (forall k, In k (bd_keys (tr_books w)) ->
                   (avg_at (book_heap w) k <= avg_at (book_heap w) r)%Q))).
Proof.
  intros Hwf.
  set (ref := Book.init "reference_book" 1000002 0).
  set (w1 := mkWorld (book_heap w ++ [ref]) (user_heap w) (tr_users w)
                     (tr_books w) (stdout w)).
  assert (Hvalid : forall k, In k (bd_keys (tr_books w)) -> (k < length (book_heap w))%nat)
    by (intros k; apply keys_valid_In; exact Hwf).
  assert (Hsame : forall k, In k (bd_keys (tr_books w)) ->
                            avg_at (book_heap w1) k = avg_at (book_heap w) k)
    by (intros k Hk; apply avg_at_app; auto).
  assert (Href : book_heap w1 !! length (book_heap w) = Some ref).
  { simpl. rewrite lookup_app_r by lia. rewrite Nat.sub_diag. reflexivity. }
  assert (Havg : avg_at (book_heap w1) (length (book_heap w)) = 0%Q)
    by (unfold avg_at; rewrite Href; reflexivity).
  destruct (highest_loop_spec w1 (bd_keys (tr_books w))) with (best := length (book_heap w))
    as (r & Hrun & Hr).
  { apply List.Forall_forall. intros k Hk. apply lookup_lt_is_Some. simpl.
    rewrite length_app. specialize (Hvalid k Hk). lia. }
  { exists ref. exact Href. }
  exists r. split.
  { unfold TomeRater.highest_rated_book. run. simpl. exact Hrun. }
  destruct Hr as [[-> Hle] | (i & Hi & Hlt & Hbefore & Hle)].
  - left. split; [reflexivity |]. split; [| split].
    + intros Hin. specialize (Hvalid _ Hin). lia.
    + exact Havg.
    + intros k Hk. rewrite <- (Hsame k Hk), <- Havg. auto.
  - right. exists i.
    assert (Hrin : In r (bd_keys (tr_books w))).
    { apply list_elem_of_In. eapply list_elem_of_lookup_2. exact Hi. }
    split; [exact Hi |]. split; [| split].
    + rewrite <- (Hsame r Hrin), <- Havg. exact Hlt.
    + intros j k Hj Hk.
      assert (Hkin : In k (bd_keys (tr_books w))).
      { apply list_elem_of_In. eapply list_elem_of_lookup_2. exact Hk. }
      rewrite <- (Hsame k Hkin), <- (Hsame r Hrin). eauto.
    + intros k Hk. rewrite <- (Hsame k Hk), <- (Hsame r Hrin). auto.
Qed.

Lemma highest_rated_book_spec_witness :
  exists r,
    TomeRater.highest_rated_book world_two_rated =
      (Ok r, mkWorld (book_heap world_two_rated ++ [Book.init "reference_book" 1000002 0])
                     (user_heap world_two_rated) (tr_users world_two_rated)
                     (tr_books world_two_rated) (stdout world_two_rated)) /\
    ((r = length (book_heap world_two_rated) /\
      ~ In r (bd_keys (tr_books world_two_rated)) /\
      avg_at (book_heap world_two_rated ++ [Book.init "reference_book" 1000002 0]) r = 0%Q /\
      forall k, In k (bd_keys (tr_books world_two_rated)) ->
                (avg_at (book_heap world_two_rated) k <= 0)%Q) \/
     (exists i,
        bd_keys (tr_books world_two_rated) !! i = Some r /\
        (0 < avg_at (book_heap world_two_rated) r)%Q /\
        (forall j k, (j < i)%nat -> bd_keys (tr_books world_two_rated) !! j = Some k ->
                     (avg_at (book_heap world_two_rated) k <
                      avg_at (book_heap world_two_rated) r)%Q) /\
        (forall k, In k (bd_keys (tr_books world_two_rated)) ->
                   (avg_at (book_heap world_two_rated) k <=
                    avg_at (book_heap world_two_rated) r)%Q))).
Proof.
  apply (highest_rated_book_spec world_two_rated). reflexivity.
Defined.

(** The tie between the two books goes to the first. *)
Example highest_rated_book_tie :
  fst (TomeRater.highest_rated_book world_two_rated) = Ok 0%nat.
Proof. reflexivity. Qed.

(** C2, as stated, fails: the catalog holds one book, read once and not
    rated, and the call returns the reference book, which is no book of the
    catalog. *)
Lemma highest_rated_book_counterexample :
  tr_books world_unrated <> [] /\
  fst (TomeRater.highest_rated_book world_unrated) = Ok 1%nat /\
  ~ In 1%nat (bd_keys (tr_books world_unrated)).
Proof.
  split; [discriminate |]. split; [reflexivity |].
  simpl. intros [H | []]. discriminate.
Qed.

(** The state of that counterexample is the one the engine reaches when a
    user reads a book without rating it. *)
Example world_unrated_reached :
  snd ((b <- TomeRater.create_book "Dune" 1001 20 ;;
        TomeRater.add_user "Alice" "alice@example.com" None ;;
        TomeRater.add_book_to_user (PyBook (default 0%nat b)) "alice@example.com" None)
       empty_world)
  = world_unrated.
Proof. reflexivity. Qed.

(** ** The most read books *)

Section SortFacts.
Context {A : Type} (key : A -> Z).

Lemma insert_desc_perm (x : A) (l : list A) :
  Permutation (insert_desc key x l) (x :: l).
Proof.
  induction l as [| y l IH]; simpl; [reflexivity |].
  destruct (key x <? key y); [| reflexivity].
  rewrite IH. apply perm_swap.
Qed.

Lemma sort_desc_perm (l : list A) : Permutation (sort_desc key l) l.
Proof.
  induction l as [| x l IH]; simpl; [reflexivity |].
  rewrite insert_desc_perm. apply perm_skip. exact IH.
Qed.

Lemma insert_desc_In (x y : A) (l : list A) :
  In y (insert_desc key x l) -> y = x \/ In y l.
Proof.
  intros H. apply (Permutation_in _ (insert_desc_perm x l)) in H.
  destruct H; auto.
Qed.

Lemma insert_desc_sorted (x : A) (l : list A) :
  StronglySorted (key_ge key) l -> StronglySorted (key_ge key) (insert_desc key x l).
Proof.
  induction 1 as [| y l Hs IH Hy]; simpl.
  - constructor; constructor.
  - destruct (key x <? key y) eqn:Hc.
    + apply Z.ltb_lt in Hc. constructor; [exact IH |].
      apply List.Forall_forall. intros z Hz.
      apply insert_desc_In in Hz as [-> | Hz].
      * unfold key_ge. lia.
      * rewrite List.Forall_forall in Hy. auto.
    + apply Z.ltb_ge in Hc. constructor; [constructor; assumption |].
      constructor; [unfold key_ge; lia |].
      rewrite List.Forall_forall in Hy |- *. intros z Hz.
      specialize (Hy z Hz). unfold key_ge in *. lia.
Qed.

Lemma sort_desc_sorted (l : list A) : StronglySorted (key_ge key) (sort_desc key l).
Proof.
  induction l as [| x l IH]; simpl; [constructor |].
  apply insert_desc_sorted. exact IH.
Qed.

(** Elements with the same key keep their order. *)
Lemma insert_desc_stable (c : Z) (x : A) (l : list A) :
  List.filter (has_key key c) (insert_desc key x l) = List.filter (has_key key c) (x :: l).
Proof.
  induction l as [| y l IH]; [reflexivity |].
  cbn [insert_desc]. destruct (key x <? key y) eqn:Hc; [| reflexivity].
  apply Z.ltb_lt in Hc. cbn [List.filter] in *. rewrite IH.
  unfold has_key.
  destruct (key x =? c) eqn:Hx; destruct (key y =? c) eqn:Hy; try reflexivity.
  apply Z.eqb_eq in Hx, Hy. lia.
Qed.

Lemma sort_desc_stable (c : Z) (l : list A) :
  List.filter (has_key key c) (sort_desc key l) = List.filter (has_key key c) l.
Proof.
  induction l as [| x l IH]; [reflexivity |].
  cbn [sort_desc fold_right]. fold (sort_desc key l).
  rewrite insert_desc_stable. cbn [List.filter]. rewrite IH. reflexivity.
Qed.

Lemma sorted_head_max (x y : A) (l : list A) :
  StronglySorted (key_ge key) (x :: l) -> In y (x :: l) -> key y <= key x.
Proof.
  intros Hs [<- | Hin]; [lia |].
  apply StronglySorted_inv in Hs as [_ Hall].
  rewrite List.Forall_forall in Hall. specialize (Hall y Hin).
  unfold key_ge in Hall. lia.
Qed.

Lemma filter_has_key_In (c : Z) (y : A) (l : list A) :
  In y (List.filter (has_key key c) l) <-> In y l /\ key y = c.
Proof.
  rewrite filter_In. unfold has_key. rewrite Z.eqb_eq. reflexivity.
Qed.

(** The outcome of a stable descending sort is determined: two sorted lists
    in which the elements of each key are the same, in the same order, are
    equal.  So [sort_desc] returns what Python's own sort returns. *)
Lemma stable_sorted_unique (l1 l2 : list A) :
  StronglySorted (key_ge key) l1 -> StronglySorted (key_ge key) l2 ->
  (forall c, List.filter (has_key key c) l1 = List.filter (has_key key c) l2) ->
  l1 = l2.
Proof.
  revert l2. induction l1 as [| x l1 IH]; intros l2 H1 H2 Hf.
  - destruct l2 as [| y l2]; [reflexivity |].
    specialize (Hf (key y)). cbn [List.filter] in Hf.
    unfold has_key in Hf. rewrite Z.eqb_refl in Hf. discriminate.
  - destruct l2 as [| y l2].
    + specialize (Hf (key x)). cbn [List.filter] in Hf.
      unfold has_key in Hf. rewrite Z.eqb_refl in Hf. discriminate.
    + assert (Hxy : key x = key y).
      { assert (Hx : In x (y :: l2)).
        { apply (filter_has_key_In (key x)). rewrite <- Hf.
          apply filter_has_key_In. split; [left |]; reflexivity. }
        assert (Hy : In y (x :: l1)).
        { apply (filter_has_key_In (key y)). rewrite Hf.
          apply filter_has_key_In. split; [left |]; reflexivity. }
        pose proof (sorted_head_max _ _ _ H2 Hx).
        pose proof (sorted_head_max _ _ _ H1 Hy). lia. }
      assert (Heq : x = y).
      { specialize (Hf (key x)). cbn [List.filter] in Hf.
        unfold has_key in Hf. rewrite <- Hxy, Z.eqb_refl in Hf.
        congruence. }
      subst y. f_equal. apply IH.
      * apply StronglySorted_inv in H1. tauto.
      * apply StronglySorted_inv in H2. tauto.
      * intros c. specialize (Hf c). cbn [List.filter] in Hf.
        destruct (has_key key c x); congruence.
Qed.

End SortFacts.

Lemma In_firstn_In {A} (n : nat) (l : list A) (y : A) :
  In y (firstn n l) -> In y l.
Proof.
  revert n. induction l as [| x l IH]; intros [| n]; simpl; try tauto.
  intros [-> | H]; [left; reflexivity | right; eauto].
Qed.

Lemma StronglySorted_firstn {A} (R : A -> A -> Prop) (n : nat) (l : list A) :
  StronglySorted R l -> StronglySorted R (firstn n l).
Proof.
  intros Hs. revert n. induction Hs as [| x l Hs IH Hx]; intros [| n]; simpl;
    try constructor.
  - apply IH.
  - rewrite List.Forall_forall in Hx |- *. intros y Hy.
    apply Hx. eapply In_firstn_In. exact Hy.
Qed.

(** C8, as the code has it.  For [n >= 0], [get_n_most_read_books n]
    returns the first [min(n, size of the catalog)] pairs of the items of
    [self.books] sorted by read count, largest first, pairs with equal
    counts in the order they have in [self.books]; the engine is left as it
    was. *)
Theorem get_n_most_read_books_spec (w : world) (n : Z) :
  0 <= n ->
  exists sorted,
    TomeRater.get_n_most_read_books n w = (Ok (firstn (Z.to_nat n) sorted), w) /\
    length (firstn (Z.to_nat n) sorted) = Nat.min (Z.to_nat n) (length (tr_books w)) /\
    StronglySorted (key_ge snd) (firstn (Z.to_nat n) sorted) /\
    Permutation sorted (bd_items (tr_books w)) /\
    StronglySorted (key_ge snd) sorted /\
    (forall c, List.filter (has_key snd c) sorted =
               List.filter (has_key snd c) (bd_items (tr_books w))).
Proof.
  intros Hn. exists (sort_desc snd (bd_items (tr_books w))).
  split; [| split; [| split; [| split; [| split]]]].
  - unfold TomeRater.get_n_most_read_books, slice_to. run.
    destruct (0 <=? n) eqn:Hc; [reflexivity |]. apply Z.leb_gt in Hc. lia.
  - rewrite length_firstn. f_equal.
    rewrite (Permutation_length (sort_desc_perm snd _)).
    unfold bd_items. apply length_map.
  - apply StronglySorted_firstn. apply sort_desc_sorted.
  - apply sort_desc_perm.
  - apply sort_desc_sorted.
  - intros c. apply sort_desc_stable.
Qed.

Lemma get_n_most_read_books_spec_witness :
  exists sorted,
    TomeRater.get_n_most_read_books 1 world_two_rated
    = (Ok (firstn (Z.to_nat 1) sorted), world_two_rated) /\
    length (firstn (Z.to_nat 1) sorted)
    = Nat.min (Z.to_nat 1) (length (tr_books world_two_rated)) /\
    StronglySorted (key_ge snd) (firstn (Z.to_nat 1) sorted) /\
    Permutation sorted (bd_items (tr_books world_two_rated)) /\
    StronglySorted (key_ge snd) sorted /\
    (forall c, List.filter (has_key snd c) sorted =
               List.filter (has_key snd c) (bd_items (tr_books world_two_rated))).
Proof.
  apply (get_n_most_read_books_spec world_two_rated 1). lia.
Defined.

(** The most read book of [world_two_rated] comes first. *)
Example get_n_most_read_books_top :
  fst (TomeRater.get_n_most_read_books 1 world_two_rated) = Ok [(1%nat, 2)].
Proof. reflexivity. Qed.

(** C8, as stated, fails for a negative [n]: [book_list[:-1]] is the sorted
    list without its last pair, so with two books in the catalog one pair is
    returned, which is not [min(-1, 2)] pairs. *)
Lemma get_n_most_read_books_counterexample :
  TomeRater.get_n_most_read_books (-1) world_two_rated
  = (Ok [(1%nat, 2)], world_two_rated) /\
  Z.of_nat (length [(1%nat, 2)])
  <> Z.min (-1) (Z.of_nat (length (tr_books world_two_rated))).
Proof. split; [reflexivity | discriminate]. Qed.

(** ** Reading a book again *)

Lemma same_hashes_refl (h : list book_obj) : same_hashes h h.
Proof. intros r. reflexivity. Qed.

Lemma filter_length_insert {A} (f : A -> bool) (l : list A) (i : nat) (x y : A) :
  l !! i = Some x -> f y = f x ->
  length (List.filter f (<[i:=y]> l)) = length (List.filter f l).
Proof.
  revert i. induction l as [| z l IH]; intros [| i]; simpl; try discriminate.
  - intros [= ->] ->. destruct (f x); reflexivity.
  - intros Hi Hf. specialize (IH i Hi Hf).
    destruct (f z); simpl; rewrite IH; reflexivity.
Qed.

(** A successful [read_book]: the user's [books] gets the entry, the book
    may get the rating, and no title or isbn changes. *)
Lemma read_book_ok (u : uref) (b : bref) (rating : option Z) (w : world)
    (uo : user_obj) (bo : book_obj) :
  user_heap w !! u = Some uo ->
  book_heap w !! b = Some bo ->
  valid_rating rating ->
  exists h' bo',
    User.read_book u (PyBook b) rating w =
      (Ok tt,
       mkWorld h'
               (<[u := mkUser (name uo) (email uo)
                              (bd_set (book_heap w) (book_hash bo) b rating (books uo))]>
                  (user_heap w))
               (tr_users w) (tr_books w) (stdout w)) /\
    same_hashes (book_heap w) h' /\
    h' !! b = Some bo' /\ book_hash bo' = book_hash bo.
Proof.
  intros Hu Hb Hvalid.
  unfold User.read_book, User.setitem_books, Book.check_rating_is_valid.
  destruct rating as [r |]; simpl in Hvalid.
  - apply in_range_0_5_spec in Hvalid as Hin. rewrite Hin. run. simpl.
    rewrite Hu, Hb. simpl. destruct (r =? 0) eqn:Hr; simpl.
    + exists (book_heap w), bo. repeat split; auto using same_hashes_refl.
    + unfold Book.add_rating, Book.check_rating_is_valid, Book.append_rating.
      rewrite Hin. run. simpl. rewrite Hb. simpl.
      eexists _, _. split; [reflexivity |].
      split; [apply same_hashes_rate; exact Hb |].
      split; [apply list_lookup_insert_eq; eapply lookup_lt_Some; eauto |].
      reflexivity.
  - run. simpl. rewrite Hu, Hb. simpl.
    exists (book_heap w), bo. repeat split; auto using same_hashes_refl.
Qed.

(** C10.  When the user registered under [e] has an entry for the book [b],
    a successful [add_book_to_user] for [b] and [e] keeps the number of
    entries of the user's [books] (the entry of [b] gets the new rating),
    and the read count of [b] in the catalog grows by one, while the number
    of users with an entry for [b] stays the same: the count is a count of
    reads, not of readers. *)
Theorem add_book_to_user_again (w : world) (e : string) (u : uref) (b : bref)
    (rating : option Z) (uo : user_obj) (bo : book_obj) :
  User.check_email_is_valid e = true ->
  sd_get e (tr_users w) = Some u ->
  user_heap w !! u = Some uo ->
  book_heap w !! b = Some bo ->
  bd_contains (book_heap w) (book_hash bo) b (books uo) = true ->
  valid_rating rating ->
  exists w' uo',
    TomeRater.add_book_to_user (PyBook b) e rating w = (Ok tt, w') /\
    user_heap w' !! u = Some uo' /\
    length (books uo') = length (books uo) /\
    bd_get (book_heap w') (book_hash bo) b (books uo') = Some rating /\
    read_count w' b = read_count w b + 1 /\
    readers w' b = readers w b.
Proof.
  intros Hvalid Hreg Hu Hb Hread Hrating.
  destruct (read_book_ok u b rating w uo bo Hu Hb Hrating)
    as (h' & bo' & Hrun & Hsame & Hb' & Hhash).
  set (uo' := mkUser (name uo) (email uo)
                     (bd_set (book_heap w) (book_hash bo) b rating (books uo))) in *.
  assert (Hulen : (u < length (user_heap w))%nat) by (eapply lookup_lt_Some; eauto).
  assert (Hreaders : forall d,
    readers (mkWorld h' (<[u:=uo']> (user_heap w)) (tr_users w) d (stdout w)) b
    = readers w b).
  { intros d. unfold readers. simpl. rewrite Hb', Hb, Hhash.
    rewrite (filter_length_insert _ _ u uo uo' Hu).
    - f_equal. apply filter_ext. intros x. unfold bd_contains.
      rewrite (bd_get_same_hashes _ _ _ _ _ Hsame). reflexivity.
    - cbv beta. unfold bd_contains in *.
      rewrite <- !(bd_get_same_hashes _ _ _ _ _ Hsame). unfold uo'. simpl.
      rewrite bd_get_set_same.
      destruct (bd_get (book_heap w) (book_hash bo) b (books uo));
        [reflexivity | discriminate]. }
  assert (Hcount : forall v,
    read_count (mkWorld h' (<[u:=uo']> (user_heap w)) (tr_users w)
                        (bd_set h' (book_hash bo) b v (tr_books w)) (stdout w)) b = v).
  { intros v. unfold read_count. simpl. rewrite Hb', Hhash, bd_get_set_same. reflexivity. }
  unfold TomeRater.add_book_to_user, TomeRater.is_existing_user.
  rewrite Hvalid. cbn [negb]. unfold bind at 1. unfold bind at 1. unfold get_tr_users at 1.
  unfold ret at 1. rewrite sd_contains_get, Hreg.
  unfold bind at 1. unfold get_tr_users at 1. rewrite Hreg.
  unfold bind at 1. rewrite Hrun.
  unfold TomeRater.check_book_in_catalog, TomeRater.contains_book,
    TomeRater.increment_books, TomeRater.setitem_books. run. simpl.
  rewrite Hb', Hhash. unfold bd_contains.
  destruct (bd_get h' (book_hash bo) b (tr_books w)) as [n |] eqn:Hget; simpl;
    repeat (progress (rewrite ?Hb', ?Hhash, ?Hget; simpl)).
  - eexists _, uo'. split; [reflexivity |]. simpl.
    split; [apply list_lookup_insert_eq; exact Hulen |].
    split; [apply bd_set_length_present; exact Hread |].
    split; [unfold uo'; simpl;
            rewrite <- (bd_get_same_hashes _ _ _ _ _ Hsame); apply bd_get_set_same |].
    split; [| apply Hreaders].
    rewrite Hcount. unfold read_count. rewrite Hb.
    rewrite (bd_get_same_hashes _ _ _ _ _ Hsame), Hget. reflexivity.
  - eexists _, uo'. split; [reflexivity |]. simpl.
    split; [apply list_lookup_insert_eq; exact Hulen |].
    split; [apply bd_set_length_present; exact Hread |].
    split; [unfold uo'; simpl;
            rewrite <- (bd_get_same_hashes _ _ _ _ _ Hsame); apply bd_get_set_same |].
    split; [| apply Hreaders].
    rewrite Hcount. unfold read_count. rewrite Hb.
    rewrite (bd_get_same_hashes _ _ _ _ _ Hsame), Hget. reflexivity.
Qed.

Lemma add_book_to_user_again_witness :
  exists w' uo',
    TomeRater.add_book_to_user (PyBook 0%nat) "alice@example.com" (Some 4) world_unrated
    = (Ok tt, w') /\
    user_heap w' !! 0%nat = Some uo' /\
    length (books uo') = 1%nat /\
    bd_get (book_heap w') ("Dune", 1001) 0%nat (books uo') = Some (Some 4) /\
    read_count w' 0%nat = read_count world_unrated 0%nat + 1 /\
    readers w' 0%nat = readers world_unrated 0%nat.
Proof.
  apply (add_book_to_user_again world_unrated "alice@example.com" 0%nat 0%nat (Some 4)
           (mkUser "Alice" "alice@example.com" [mkEntry ("Dune", 1001) 0%nat None])
           (Book.init "Dune" 1001 20));
    try reflexivity.
  simpl. lia.
Defined.

(** After Alice has read Dune a second time, Dune has been read twice, by
    one reader. *)
Example read_count_exceeds_readers :
  read_count
    (snd (TomeRater.add_book_to_user (PyBook 0%nat) "alice@example.com" (Some 4)
            world_unrated)) 0%nat = 2 /\
  readers
    (snd (TomeRater.add_book_to_user (PyBook 0%nat) "alice@example.com" (Some 4)
            world_unrated)) 0%nat = 1%nat.
Proof. split; reflexivity. Qed.

(** ** Adding a user twice *)

Section KeepsUsers.

Lemma keeps_users_ret {A} (a : A) : keeps_users (ret a).
Proof. intros w. reflexivity. Qed.

Lemma keeps_users_raise {A} (e : exn) : keeps_users (@raise A e).
Proof. intros w. reflexivity. Qed.

Lemma keeps_users_bind {A B} (c : M A) (k : A -> M B) :
  keeps_users c -> (forall a, keeps_users (k a)) -> keeps_users (bind c k).
Proof.
  intros Hc Hk w. unfold bind. specialize (Hc w).
  destruct (c w) as [[a | e] w1]; simpl in *; [| exact Hc].
  rewrite Hk. exact Hc.
Qed.

Lemma keeps_users_try {A} (body : M A) (handler : exn -> M A) :
  keeps_users body -> (forall e, keeps_users (handler e)) ->
  keeps_users (try_except_ValueError body handler).
Proof.
  intros Hb Hh w. unfold try_except_ValueError. specialize (Hb w).
  destruct (body w) as [[a | []] w1]; simpl in *; try exact Hb.
  rewrite Hh. exact Hb.
Qed.

Lemma keeps_users_print (msg : string) : keeps_users (print msg).
Proof. intros w. reflexivity. Qed.

Lemma keeps_users_get_book (b : bref) : keeps_users (get_book b).
Proof. intros w. unfold get_book. destruct (book_heap w !! b); reflexivity. Qed.

Lemma keeps_users_get_user (u : uref) : keeps_users (get_user u).
Proof. intros w. unfold get_user. destruct (user_heap w !! u); reflexivity. Qed.

Lemma keeps_users_set_book (b : bref) (o : book_obj) : keeps_users (set_book b o).
Proof. intros w. reflexivity. Qed.

Lemma keeps_users_set_user (u : uref) (o : user_obj) : keeps_users (set_user u o).
Proof. intros w. reflexivity. Qed.

Lemma keeps_users_set_tr_books (d : bdict Z) : keeps_users (set_tr_books d).
Proof. intros w. reflexivity. Qed.

Lemma keeps_users_get_heap : keeps_users get_heap.
Proof. intros w. reflexivity. Qed.

Lemma keeps_users_get_tr_books : keeps_users get_tr_books.
Proof. intros w. reflexivity. Qed.

Lemma keeps_users_get_tr_users : keeps_users get_tr_users.
Proof. intros w. reflexivity. Qed.

End KeepsUsers.

Ltac keeps :=
  repeat first
    [ apply keeps_users_ret | apply keeps_users_raise | apply keeps_users_print
    | apply keeps_users_get_book | apply keeps_users_get_user
    | apply keeps_users_set_book | apply keeps_users_set_user
    | apply keeps_users_set_tr_books | apply keeps_users_get_heap
    | apply keeps_users_get_tr_books | apply keeps_users_get_tr_users
    | apply keeps_users_bind; [| intros ?]
    | apply keeps_users_try; [| intros ?]
    | match goal with
      | |- keeps_users (if ?c then _ else _) => destruct c
      | |- keeps_users (match ?x with _ => _ end) => destruct x
      end
    | progress unfold Book.check_rating_is_valid, Book.append_rating,
        Book.add_rating, User.read_book, User.setitem_books,
        TomeRater.is_existing_user, TomeRater.check_book_in_catalog,
        TomeRater.contains_book, TomeRater.increment_books,
        TomeRater.setitem_books ].

Lemma keeps_users_read_book (u : uref) (book : pyval) (rating : option Z) :
  keeps_users (User.read_book u book rating).
Proof. keeps. Qed.

Lemma keeps_users_add_book_to_user (book : pyval) (e : string) (rating : option Z) :
  keeps_users (TomeRater.add_book_to_user book e rating).
Proof. unfold TomeRater.add_book_to_user. keeps. Qed.

Lemma keeps_users_for_each {A} (xs : list A) (body : A -> M unit) :
  (forall x, keeps_users (body x)) -> keeps_users (for_each xs body).
Proof.
  intros Hbody. induction xs as [| x xs IH]; simpl; keeps; auto.
Qed.

Lemma sd_get_set_same {V} (k : string) (v : V) (d : list (string * V)) :
  sd_get k (sd_set k v d) = Some v.
Proof.
  induction d as [| [k' v'] d IH]; simpl.
  - rewrite String.eqb_refl. reflexivity.
  - destruct (String.eqb k' k) eqn:Hk; simpl; rewrite Hk; [reflexivity | exact IH].
Qed.

(** After [add_user] with a valid email that was not registered, the new
    user is registered under it, whatever happens with the initial books. *)
Lemma add_user_registers (w : world) (n e : string) (user_books : option (list pyval)) :
  User.check_email_is_valid e = true ->
  sd_get e (tr_users w) = None ->
  sd_get e (tr_users (snd (TomeRater.add_user n e user_books w)))
  = Some (length (user_heap w)).
Proof.
  intros Hvalid Hnone.
  unfold TomeRater.add_user, TomeRater.is_existing_user.
  rewrite Hvalid. cbn [negb]. run. simpl. rewrite sd_contains_get, Hnone. simpl.
  assert (Hk : forall (body : M unit) w1,
             keeps_users body ->
             sd_get e (tr_users w1) = Some (length (user_heap w)) ->
             sd_get e (tr_users (snd (body w1))) = Some (length (user_heap w))).
  { intros body w1 Hbody Hw1. rewrite Hbody. exact Hw1. }
  apply Hk; [| apply sd_get_set_same].
  destruct user_books as [l |]; [| intros w0; reflexivity].
  apply keeps_users_for_each. intros [| b | repr]; try (intros w0; reflexivity).
  apply keeps_users_add_book_to_user.
Qed.

(** X12.  [add_user] twice with the same email: the second call only prints. *)
Lemma add_user_twice (w : world) (n n' e : string)
    (user_books user_books' : option (list pyval)) :
  User.check_email_is_valid e = true ->
  sd_get e (tr_users w) = None ->
  TomeRater.add_user n' e user_books' (snd (TomeRater.add_user n e user_books w))
  = (Ok tt, put_line "User already exists" (snd (TomeRater.add_user n e user_books w))).
Proof.
  intros Hvalid Hnone.
  pose proof (add_user_registers w n e user_books Hvalid Hnone) as Hreg.
  unfold TomeRater.add_user at 1. unfold TomeRater.is_existing_user.
  rewrite Hvalid. cbn [negb]. run. cbn [fst snd].
  rewrite sd_contains_get, Hreg. reflexivity.
Qed.

(** An accepted address, and what the characterisation says of it. *)
Lemma check_email_is_valid_exact_witness :
  User.check_email_is_valid "alice@example.com" = true /\
  (EmailShape.email_shape (list_ascii_of_string "alice@example.com") \/
   exists s, list_ascii_of_string "alice@example.com" = s ++ [Regex.LF] /\
             EmailShape.email_shape s) /\
  map to_lower (list_ascii_of_string "alice@example.com")
  = list_ascii_of_string "alice@example.com".
Proof.
  split; [reflexivity |].
  destruct (check_email_is_valid_exact "alice@example.com") as [Hiff Hlower].
  split; [apply Hiff; reflexivity | apply Hlower; reflexivity].
Defined.

(* ===================================================================== *)
(** * Further properties of the classes                                   *)
(* ===================================================================== *)

(** ** Ratings of a book *)

(** A rating from 0 to 4 is appended to the ratings of the book, and nothing
    else changes. *)
Theorem add_rating_valid (b : bref) (r : Z) (w : world) (o : book_obj) :
  book_heap w !! b = Some o ->
  0 <= r <= 4 ->
  Book.add_rating b (Some r) w =
    (Ok tt,
     mkWorld (<[b := mkBook (title o) (isbn o) (price o) (ratings o ++ [r]) (kind o)]>
                (book_heap w))
             (user_heap w) (tr_users w) (tr_books w) (stdout w)).
Proof.
  intros Hb Hr. apply in_range_0_5_spec in Hr.
  unfold Book.add_rating, Book.check_rating_is_valid, Book.append_rating.
  rewrite Hr. run. simpl. rewrite Hb. reflexivity.
Qed.

Lemma add_rating_valid_witness :
  Book.add_rating 0%nat (Some 3) world_fresh =
    (Ok tt,
     mkWorld [mkBook "Dune" 1001 20 [3] Plain] (user_heap world_fresh)
             (tr_users world_fresh) (tr_books world_fresh) (stdout world_fresh)).
Proof.
  apply (add_rating_valid 0%nat 3 world_fresh (Book.init "Dune" 1001 20));
    [reflexivity | lia].
Defined.

(** X1.  [add_rating] with [None] or with an integer outside 0..4 raises the
    [ValueError] of the check after printing a line; no object changes,
    whatever the reference. *)
Theorem add_rating_invalid (b : bref) (rating : option Z) (w : world) :
  match rating with
  | None => True
  | Some r => ~ (0 <= r <= 4)
  end ->
  Book.add_rating b rating w =
    (Raise (ValueError "Invalid rating"),
     put_line "Invalid rating. Please enter a rating from 0 to 4" w).
Proof.
  intros Hbad.
  assert (Hr : Book.in_range_0_5 rating = false).
  { destruct rating as [r |]; [| reflexivity].
    destruct (Book.in_range_0_5 (Some r)) eqn:E; [| reflexivity].
    apply in_range_0_5_spec in E. contradiction. }
  unfold Book.add_rating, Book.check_rating_is_valid. rewrite Hr. reflexivity.
Qed.

Lemma add_rating_invalid_witness :
  Book.add_rating 0%nat (Some 5) world_fresh =
    (Raise (ValueError "Invalid rating"),
     put_line "Invalid rating. Please enter a rating from 0 to 4" world_fresh) /\
  Book.add_rating 0%nat None world_fresh =
    (Raise (ValueError "Invalid rating"),
     put_line "Invalid rating. Please enter a rating from 0 to 4" world_fresh).
Proof.
  split.
  - apply (add_rating_invalid 0%nat (Some 5) world_fresh). simpl. lia.
  - apply (add_rating_invalid 0%nat None world_fresh). exact I.
Defined.

Lemma py_sum_from (l : list Z) (acc : Z) : fold_left Z.add l acc = acc + py_sum l.
Proof.
  unfold py_sum. revert acc. induction l as [| x l IH]; intros acc; simpl; [lia |].
  rewrite (IH (acc + x)), (IH (0 + x)). lia.
Qed.

Lemma py_sum_cons (x : Z) (l : list Z) : py_sum (x :: l) = x + py_sum l.
Proof. unfold py_sum at 1. simpl. apply py_sum_from. Qed.

Lemma py_sum_bounds (l : list Z) :
  Forall (fun r => 0 <= r <= 4) l ->
  0 <= py_sum l <= 4 * Z.of_nat (length l).
Proof.
  induction 1 as [| x l Hx Hl IH].
  - unfold py_sum. simpl. lia.
  - rewrite py_sum_cons. cbn [length]. lia.
Qed.

Lemma true_div_bounds (s n : Z) :
  0 < n -> 0 <= s <= 4 * n -> (0 <= true_div s n <= 4)%Q.
Proof.
  intros Hn Hs. unfold true_div.
  assert (Hpos : (0 < inject_Z n)%Q) by (unfold Qlt; simpl; lia).
  split.
  - apply Qle_shift_div_l; [exact Hpos |]. unfold Qle. simpl. lia.
  - apply Qle_shift_div_r; [exact Hpos |]. unfold Qle. simpl. lia.
Qed.

(** X2.  The average rating of a book whose ratings are all from 0 to 4 lies
    between 0 and 4 (and is 0 for a book without ratings). *)
Theorem average_rating_bounds (o : book_obj) :
  Forall (fun r => 0 <= r <= 4) (ratings o) ->
  (0 <= Book.average_rating o <= 4)%Q /\
  (ratings o = [] -> Book.average_rating o = 0%Q).
Proof.
  intros Hall. split.
  - unfold Book.average_rating.
    destruct (ratings o) as [| x l] eqn:Hr.
    + simpl. split; [apply Qle_refl | unfold Qle; simpl; lia].
    + cbn [length Nat.eqb negb]. apply true_div_bounds; [lia |].
      apply py_sum_bounds. exact Hall.
  - intros Hnil. unfold Book.average_rating. rewrite Hnil. reflexivity.
Qed.

Lemma average_rating_bounds_witness :
  (0 <= Book.average_rating book_rated <= 4)%Q /\
  (ratings book_rated = [] -> Book.average_rating book_rated = 0%Q).
Proof.
  apply (average_rating_bounds book_rated).
  repeat constructor; lia.
Defined.

(** X3.  After the first rating [r] of a book, the average rating of the book
    is [r]. *)
Theorem add_rating_first_average (b : bref) (r : Z) (w : world) (o : book_obj) :
  book_heap w !! b = Some o ->
  ratings o = [] ->
  0 <= r <= 4 ->
  (avg_at (book_heap (snd (Book.add_rating b (Some r) w))) b == inject_Z r)%Q.
Proof.
  intros Hb Hnil Hr. rewrite (add_rating_valid b r w o Hb Hr). simpl.
  unfold avg_at. rewrite list_lookup_insert_eq by (eapply lookup_lt_Some; eauto).
  unfold Book.average_rating. simpl. rewrite Hnil. simpl.
  unfold true_div, py_sum. simpl. unfold Qeq, Qdiv, Qmult, Qinv. simpl. lia.
Qed.

Lemma add_rating_first_average_witness :
  (avg_at (book_heap (snd (Book.add_rating 0%nat (Some 3%Z) world_fresh))) 0%nat
   == inject_Z 3%Z)%Q.
Proof.
  apply (add_rating_first_average 0%nat 3 world_fresh (Book.init "Dune" 1001 20));
    [reflexivity | reflexivity | lia].
Defined.

(** ** Invariants of the engine *)

Section Preserves.
Context (P : world -> Prop).

Lemma preserves_ret {A} (a : A) : preserves P (ret a).
Proof. intros w Hw. exact Hw. Qed.

Lemma preserves_raise {A} (e : exn) : preserves P (@raise A e).
Proof. intros w Hw. exact Hw. Qed.

Lemma preserves_bind {A B} (c : M A) (k : A -> M B) :
  preserves P c -> (forall a, preserves P (k a)) -> preserves P (bind c k).
Proof.
  intros Hc Hk w Hw. unfold bind. specialize (Hc w Hw).
  destruct (c w) as [[a | e] w1]; simpl in *; [| exact Hc].
  apply Hk. exact Hc.
Qed.

Lemma preserves_try {A} (body : M A) (handler : exn -> M A) :
  preserves P body -> (forall e, preserves P (handler e)) ->
  preserves P (try_except_ValueError body handler).
Proof.
  intros Hb Hh w Hw. unfold try_except_ValueError. specialize (Hb w Hw).
  destruct (body w) as [[a | []] w1]; simpl in *; try exact Hb.
  apply Hh. exact Hb.
Qed.

Lemma preserves_get_book (b : bref) : preserves P (get_book b).
Proof. intros w Hw. unfold get_book. destruct (book_heap w !! b); exact Hw. Qed.

Lemma preserves_get_user (u : uref) : preserves P (get_user u).
Proof. intros w Hw. unfold get_user. destruct (user_heap w !! u); exact Hw. Qed.

Lemma preserves_get_heap : preserves P get_heap.
Proof. intros w Hw. exact Hw. Qed.

Lemma preserves_get_tr_books : preserves P get_tr_books.
Proof. intros w Hw. exact Hw. Qed.

Lemma preserves_get_tr_users : preserves P get_tr_users.
Proof. intros w Hw. exact Hw. Qed.

Lemma preserves_for_each {A} (xs : list A) (body : A -> M unit) :
  (forall x, preserves P (body x)) -> preserves P (for_each xs body).
Proof.
  intros Hbody. induction xs as [| x xs IH]; simpl.
  - apply preserves_ret.
  - apply preserves_bind; auto.
Qed.

End Preserves.

(** A property of one component of the world is kept by a computation that
    leaves the component as it is. *)
Lemma preserves_frame {A X} (f : world -> X) (Q : X -> Prop) (c : M A) :
  (forall w, f (snd (c w)) = f w) -> preserves (fun w => Q (f w)) c.
Proof. intros Hf w Hw. rewrite Hf. exact Hw. Qed.

(** The steps shared by the proofs of the invariants: [leaf] closes the
    goals on the operations that write the component at hand. *)
Ltac pres leaf :=
  repeat first
    [ leaf
    | apply preserves_ret | apply preserves_raise
    | apply preserves_get_book | apply preserves_get_user
    | apply preserves_get_heap | apply preserves_get_tr_books
    | apply preserves_get_tr_users
    | apply preserves_for_each; intros ?
    | apply preserves_bind; [| intros ?]
    | apply preserves_try; [| intros ?]
    | match goal with
      | |- preserves _ (if ?c then _ else _) => destruct c
      | |- preserves _ (match ?x with _ => _ end) => destruct x
      end ].

(** *** Ratings stay within 0..4 *)

Lemma ratings_ok_add_rating (b : bref) (rating : option Z) :
  preserves (fun w => ratings_ok (book_heap w)) (Book.add_rating b rating).
Proof.
  intros w Hw. unfold Book.add_rating, Book.check_rating_is_valid, Book.append_rating.
  destruct (Book.in_range_0_5 rating) eqn:Hr; [| exact Hw].
  destruct rating as [r |]; [| discriminate].
  apply in_range_0_5_spec in Hr. run. simpl.
  destruct (book_heap w !! b) as [o |] eqn:Hb; [| exact Hw].
  simpl. unfold ratings_ok in *. apply Forall_insert; [exact Hw |].
  simpl. apply Forall_app. split.
  - apply (Forall_lookup_1 _ _ _ _ Hw Hb).
  - constructor; [exact Hr | constructor].
Qed.

Lemma ratings_ok_new_book (o : book_obj) :
  ratings o = [] -> preserves (fun w => ratings_ok (book_heap w)) (new_book o).
Proof.
  intros Ho w Hw. unfold new_book, ratings_ok in *. simpl.
  apply Forall_app. split; [exact Hw |].
  constructor; [rewrite Ho; constructor | constructor].
Qed.

Lemma ratings_ok_set_isbn (b : bref) (i : Z) :
  preserves (fun w => ratings_ok (book_heap w)) (Book.set_isbn b i).
Proof.
  intros w Hw. unfold Book.set_isbn. run. simpl.
  destruct (book_heap w !! b) as [o |] eqn:Hb; [| exact Hw].
  simpl. unfold ratings_ok in *. apply Forall_insert; [exact Hw |].
  apply (Forall_lookup_1 _ _ _ _ Hw Hb).
Qed.

Ltac ratings_leaf :=
  first
    [ apply ratings_ok_add_rating
    | apply ratings_ok_new_book; reflexivity
    | match goal with
      | |- preserves _ (print _) => apply (preserves_frame book_heap ratings_ok); intros ?; reflexivity
      | |- preserves _ (set_user _ _) => apply (preserves_frame book_heap ratings_ok); intros ?; reflexivity
      | |- preserves _ (new_user _) => apply (preserves_frame book_heap ratings_ok); intros ?; reflexivity
      | |- preserves _ (set_tr_users _) => apply (preserves_frame book_heap ratings_ok); intros ?; reflexivity
      | |- preserves _ (set_tr_books _) => apply (preserves_frame book_heap ratings_ok); intros ?; reflexivity
      end ].

Lemma ratings_ok_read_book (u : uref) (book : pyval) (rating : option Z) :
  preserves (fun w => ratings_ok (book_heap w)) (User.read_book u book rating).
Proof.
  unfold User.read_book, User.setitem_books, Book.check_rating_is_valid.
  pres ratings_leaf.
Qed.

Lemma ratings_ok_add_book_to_user (book : pyval) (e : string) (rating : option Z) :
  preserves (fun w => ratings_ok (book_heap w))
            (TomeRater.add_book_to_user book e rating).
Proof.
  unfold TomeRater.add_book_to_user, TomeRater.is_existing_user,
    TomeRater.check_book_in_catalog, TomeRater.contains_book,
    TomeRater.increment_books, TomeRater.setitem_books.
  pres ltac:(first [apply ratings_ok_read_book | ratings_leaf]).
Qed.

Lemma ratings_ok_scan_isbn (i : Z) (catalog : list bref) :
  preserves (fun w => ratings_ok (book_heap w)) (TomeRater.scan_isbn i catalog).
Proof.
  induction catalog as [| k catalog IH]; simpl; pres ratings_leaf. exact IH.
Qed.

(** X4.  Whatever is called, with whatever arguments and however the call ends,
    the ratings of all books stay integers from 0 to 4: the engine and the
    user can only add a rating through [add_rating], which checks it. *)
Theorem ratings_stay_in_range :
  (forall b rating, preserves (fun w => ratings_ok (book_heap w)) (Book.add_rating b rating)) /\
  (forall b i, preserves (fun w => ratings_ok (book_heap w)) (Book.set_isbn b i)) /\
  (forall u book rating,
     preserves (fun w => ratings_ok (book_heap w)) (User.read_book u book rating)) /\
  (forall u a, preserves (fun w => ratings_ok (book_heap w)) (User.change_email u a)) /\
  (forall t i p, preserves (fun w => ratings_ok (book_heap w)) (TomeRater.create_book t i p)) /\
  (forall t a i p,
     preserves (fun w => ratings_ok (book_heap w)) (TomeRater.create_novel t a i p)) /\
  (forall t s l i p,
     preserves (fun w => ratings_ok (book_heap w)) (TomeRater.create_non_fiction t s l i p)) /\
  (forall book e rating,
     preserves (fun w => ratings_ok (book_heap w)) (TomeRater.add_book_to_user book e rating)) /\
  (forall n e user_books,
     preserves (fun w => ratings_ok (book_heap w)) (TomeRater.add_user n e user_books)) /\
  preserves (fun w => ratings_ok (book_heap w)) TomeRater.highest_rated_book.
Proof.
  repeat split; intros.
  - apply ratings_ok_add_rating.
  - apply ratings_ok_set_isbn.
  - apply ratings_ok_read_book.
  - unfold User.change_email. pres ratings_leaf.
  - unfold TomeRater.create_book, TomeRater.check_isbn_in_catalog,
      TomeRater.catalog_generator.
    pres ltac:(first [apply ratings_ok_scan_isbn | ratings_leaf]).
  - unfold TomeRater.create_novel, TomeRater.check_isbn_in_catalog,
      TomeRater.catalog_generator.
    pres ltac:(first [apply ratings_ok_scan_isbn | ratings_leaf]).
  - unfold TomeRater.create_non_fiction, TomeRater.check_isbn_in_catalog,
      TomeRater.catalog_generator.
    pres ltac:(first [apply ratings_ok_scan_isbn | ratings_leaf]).
  - apply ratings_ok_add_book_to_user.
  - unfold TomeRater.add_user, TomeRater.is_existing_user.
    pres ltac:(first [apply ratings_ok_add_book_to_user | ratings_leaf]).
  - unfold TomeRater.highest_rated_book.
    apply preserves_bind; [apply ratings_ok_new_book; reflexivity | intros r].
    apply preserves_bind; [apply preserves_get_tr_books | intros d].
    generalize r. induction (bd_keys d) as [| k keys IH]; intros best; simpl;
      pres ratings_leaf; apply IH.
Qed.

Lemma ratings_stay_in_range_witness :
  ratings_ok (book_heap world_unrated) /\
  ratings_ok (book_heap (snd (TomeRater.add_book_to_user (PyBook 0%nat)
                                "alice@example.com" (Some 4) world_unrated))).
Proof.
  assert (H0 : ratings_ok (book_heap world_unrated)) by (repeat constructor).
  split; [exact H0 |].
  destruct ratings_stay_in_range as (_ & _ & _ & _ & _ & _ & _ & Hadd & _).
  apply (Hadd (PyBook 0%nat) "alice@example.com" (Some 4) world_unrated H0).
Defined.

(** *** Read counts are at least 1 *)

Lemma bd_set_Forall {V} (Q : V -> Prop) (h : list book_obj) (hk : hash_t) (k : bref)
    (v : V) (d : bdict V) :
  Forall (fun e => Q (e_val e)) d -> Q v ->
  Forall (fun e => Q (e_val e)) (bd_set h hk k v d).
Proof.
  intros Hd Hv. induction Hd as [| e d He Hd IH]; simpl.
  - constructor; [exact Hv | constructor].
  - destruct (key_matches h hk k e); constructor; auto.
Qed.

Lemma bd_get_Forall {V} (Q : V -> Prop) (h : list book_obj) (hk : hash_t) (k : bref)
    (v : V) (d : bdict V) :
  Forall (fun e => Q (e_val e)) d -> bd_get h hk k d = Some v -> Q v.
Proof.
  intros Hd Hget. apply bd_get_In in Hget as (e & Hin & <-).
  rewrite List.Forall_forall in Hd. auto.
Qed.

Lemma counts_pos_increment_books (b : bref) :
  preserves (fun w => counts_pos (tr_books w)) (TomeRater.increment_books b).
Proof.
  intros w Hw. unfold TomeRater.increment_books. run. simpl.
  destruct (book_heap w !! b) as [o |]; [| exact Hw]. simpl.
  destruct (bd_get (book_heap w) (book_hash o) b (tr_books w)) as [n |] eqn:Hget;
    [| exact Hw].
  simpl. apply bd_set_Forall; [exact Hw |].
  pose proof (bd_get_Forall (fun v => 1 <= v) _ _ _ _ _ Hw Hget). simpl in *. lia.
Qed.

Lemma counts_pos_setitem_books (b : bref) :
  preserves (fun w => counts_pos (tr_books w)) (TomeRater.setitem_books b 1).
Proof.
  intros w Hw. unfold TomeRater.setitem_books. run. simpl.
  destruct (book_heap w !! b) as [o |]; [| exact Hw]. simpl.
  apply bd_set_Forall; [exact Hw | lia].
Qed.

Ltac counts_leaf :=
  first
    [ apply counts_pos_increment_books
    | apply counts_pos_setitem_books
    | match goal with
      | |- preserves _ (print _) => apply (preserves_frame tr_books counts_pos); intros ?; reflexivity
      | |- preserves _ (set_book _ _) => apply (preserves_frame tr_books counts_pos); intros ?; reflexivity
      | |- preserves _ (set_user _ _) => apply (preserves_frame tr_books counts_pos); intros ?; reflexivity
      | |- preserves _ (new_book _) => apply (preserves_frame tr_books counts_pos); intros ?; reflexivity
      | |- preserves _ (new_user _) => apply (preserves_frame tr_books counts_pos); intros ?; reflexivity
      | |- preserves _ (set_tr_users _) => apply (preserves_frame tr_books counts_pos); intros ?; reflexivity
      end ].

Lemma counts_pos_read_book (u : uref) (book : pyval) (rating : option Z) :
  preserves (fun w => counts_pos (tr_books w)) (User.read_book u book rating).
Proof.
  unfold User.read_book, User.setitem_books, Book.check_rating_is_valid,
    Book.add_rating, Book.check_rating_is_valid, Book.append_rating.
  pres counts_leaf.
Qed.

Lemma counts_pos_add_book_to_user (book : pyval) (e : string) (rating : option Z) :
  preserves (fun w => counts_pos (tr_books w))
            (TomeRater.add_book_to_user book e rating).
Proof.
  unfold TomeRater.add_book_to_user, TomeRater.is_existing_user,
    TomeRater.check_book_in_catalog, TomeRater.contains_book.
  pres ltac:(first [apply counts_pos_read_book | counts_leaf]).
Qed.

(** X6.  The read counts of the catalog stay at least 1 under the operations of
    the engine that write the catalog, however they end: an entry is
    created with the count 1, and a count only grows. *)
Theorem read_counts_stay_positive :
  (forall book e rating,
     preserves (fun w => counts_pos (tr_books w)) (TomeRater.add_book_to_user book e rating)) /\
  (forall n e user_books,
     preserves (fun w => counts_pos (tr_books w)) (TomeRater.add_user n e user_books)).
Proof.
  split; intros.
  - apply counts_pos_add_book_to_user.
  - unfold TomeRater.add_user, TomeRater.is_existing_user.
    pres ltac:(first [apply counts_pos_add_book_to_user | counts_leaf]).
Qed.

Lemma read_counts_stay_positive_witness :
  counts_pos (tr_books world_unrated) /\
  counts_pos (tr_books (snd (TomeRater.add_book_to_user (PyBook 0%nat)
                               "alice@example.com" (Some 4) world_unrated))).
Proof.
  assert (H0 : counts_pos (tr_books world_unrated)) by (repeat constructor; simpl; lia).
  split; [exact H0 |].
  destruct read_counts_stay_positive as [Hadd _].
  apply (Hadd (PyBook 0%nat) "alice@example.com" (Some 4) world_unrated H0).
Defined.

(** *** Registered emails are valid *)

Lemma emails_valid_sd_set (e : string) (u : uref) (us : list (string * uref)) :
  User.check_email_is_valid e = true ->
  emails_valid us -> emails_valid (sd_set e u us).
Proof.
  intros He Hus. unfold emails_valid in *.
  induction Hus as [| [k v] us Hk Hus IH]; simpl.
  - constructor; [exact He | constructor].
  - destruct (String.eqb k e); constructor; auto.
Qed.

Ltac emails_leaf :=
  first [ match goal with
  | |- preserves _ (print _) => apply (preserves_frame tr_users emails_valid); intros ?; reflexivity
  | |- preserves _ (set_book _ _) => apply (preserves_frame tr_users emails_valid); intros ?; reflexivity
  | |- preserves _ (set_user _ _) => apply (preserves_frame tr_users emails_valid); intros ?; reflexivity
  | |- preserves _ (new_book _) => apply (preserves_frame tr_users emails_valid); intros ?; reflexivity
  | |- preserves _ (new_user _) => apply (preserves_frame tr_users emails_valid); intros ?; reflexivity
  | |- preserves _ (set_tr_books _) => apply (preserves_frame tr_users emails_valid); intros ?; reflexivity
  end ].

Lemma emails_valid_add_book_to_user (book : pyval) (e : string) (rating : option Z) :
  preserves (fun w => emails_valid (tr_users w))
            (TomeRater.add_book_to_user book e rating).
Proof.
  apply (preserves_frame tr_users emails_valid). apply keeps_users_add_book_to_user.
Qed.

(** X7.  Every email in [self.users] passes [check_email_is_valid], and this is
    kept by the operations of the engine, however they end: [add_user]
    registers a user only after the check.  ([change_email] on a user
    changes the object, not the email the user is registered under.) *)
Theorem registered_emails_stay_valid :
  (forall n e user_books,
     preserves (fun w => emails_valid (tr_users w)) (TomeRater.add_user n e user_books)) /\
  (forall book e rating,
     preserves (fun w => emails_valid (tr_users w)) (TomeRater.add_book_to_user book e rating)) /\
  (forall u a, preserves (fun w => emails_valid (tr_users w)) (User.change_email u a)).
Proof.
  split; [| split]; intros.
  - intros w Hw. unfold TomeRater.add_user, TomeRater.is_existing_user.
    destruct (User.check_email_is_valid e) eqn:He; cbn [negb]; [| exact Hw].
    run. simpl. destruct (sd_contains e (tr_users w)); simpl; [exact Hw |].
    assert (Hk : forall (body : M unit) w1,
               keeps_users body ->
               emails_valid (tr_users w1) -> emails_valid (tr_users (snd (body w1)))).
    { intros body w1 Hbody Hw1. rewrite Hbody. exact Hw1. }
    apply Hk; [| simpl; apply emails_valid_sd_set; assumption].
    destruct user_books as [l |]; [| intros w0; reflexivity].
    apply keeps_users_for_each. intros [| b | repr]; try (intros w0; reflexivity).
    apply keeps_users_add_book_to_user.
  - apply emails_valid_add_book_to_user.
  - unfold User.change_email. pres emails_leaf.
Qed.

Lemma registered_emails_stay_valid_witness :
  emails_valid (tr_users world_unrated) /\
  emails_valid (tr_users (snd (TomeRater.add_user "Bob" "bob@example.com"
                                 (Some [PyBook 0%nat; PyNone]) world_unrated))).
Proof.
  assert (H0 : emails_valid (tr_users world_unrated)) by (repeat constructor).
  split; [exact H0 |].
  destruct registered_emails_stay_valid as [Hadd _].
  apply (Hadd "Bob" "bob@example.com" (Some [PyBook 0%nat; PyNone]) world_unrated H0).
Defined.

(** ** Changing the email of a user *)

(** X8.  [change_email] with an address that fails the check raises
    [ValueError] and changes nothing. *)
Theorem change_email_invalid (u : uref) (a : string) (w : world) :
  User.check_email_is_valid a = false ->
  User.change_email u a w = (Raise (ValueError "Bad email syntax"), w).
Proof.
  intros Ha. unfold User.change_email. rewrite Ha. reflexivity.
Qed.

Lemma change_email_invalid_witness :
  User.change_email 0%nat "not-an-email" world_fresh
  = (Raise (ValueError "Bad email syntax"), world_fresh).
Proof.
  apply (change_email_invalid 0%nat "not-an-email" world_fresh). reflexivity.
Defined.

(** X9.  [change_email] with a valid address changes the [email] of the user
    object and nothing else, apart from the line it prints: every other
    user object, the books, the catalog and the registered users are as
    before.  So the engine still has the user under the old email, and a
    call of [add_book_to_user] with the new email finds no user. *)
Theorem change_email_keeps_registration (u : uref) (old new : string) (w : world)
    (uo : user_obj) (book : pyval) (rating : option Z) :
  user_heap w !! u = Some uo ->
  User.check_email_is_valid new = true ->
  sd_get old (tr_users w) = Some u ->
  sd_get new (tr_users w) = None ->
  exists w1,
    User.change_email u new w = (Ok tt, w1) /\
    user_heap w1 !! u = Some (mkUser (name uo) new (books uo)) /\
    book_heap w1 = book_heap w /\ tr_books w1 = tr_books w /\
    sd_get old (tr_users w1) = Some u /\
    sd_get new (tr_users w1) = None /\
    TomeRater.add_book_to_user book new rating w1
    = (Ok tt, put_line ("No user with email " ++ new ++ "!") w1) /\
    w1 = mkWorld (book_heap w)
                 (<[u := mkUser (name uo) new (books uo)]> (user_heap w))
                 (tr_users w) (tr_books w)
                 (stdout w ++ ["User email has been updated"]) /\
    length (user_heap w1) = length (user_heap w) /\
    (forall u', u' <> u -> user_heap w1 !! u' = user_heap w !! u') /\
    tr_users w1 = tr_users w.
Proof.
  intros Hu Hnew Hold Hnone.
  unfold User.change_email. rewrite Hnew. run. simpl. rewrite Hu. simpl.
  eexists. split; [reflexivity |]. simpl.
  split; [apply list_lookup_insert_eq; eapply lookup_lt_Some; eauto |].
  repeat (split; [assumption || reflexivity |]).
  split.
  { unfold TomeRater.add_book_to_user, TomeRater.is_existing_user.
    rewrite Hnew. run. simpl. rewrite sd_contains_get, Hnone. reflexivity. }
  split; [reflexivity |].
  split; [apply length_insert |].
  split; [| reflexivity].
  intros u' Hne. apply list_lookup_insert_ne. congruence.
Qed.

Lemma change_email_keeps_registration_witness :
  exists w1,
    User.change_email 1%nat "bob@example.org" world_library = (Ok tt, w1) /\
    user_heap w1 !! 1%nat
    = Some (mkUser "Bob" "bob@example.org" [mkEntry ("Emma", 1003) 2%nat (Some 3)]) /\
    book_heap w1 = book_heap world_library /\ tr_books w1 = tr_books world_library /\
    sd_get "bob@example.com" (tr_users w1) = Some 1%nat /\
    sd_get "bob@example.org" (tr_users w1) = None /\
    TomeRater.add_book_to_user (PyBook 0%nat) "bob@example.org" (Some 4) w1
    = (Ok tt, put_line ("No user with email " ++ "bob@example.org" ++ "!") w1) /\
    w1 = mkWorld (book_heap world_library)
                 (<[1%nat := mkUser "Bob" "bob@example.org"
                                    [mkEntry ("Emma", 1003) 2%nat (Some 3)]]>
                    (user_heap world_library))
                 (tr_users world_library) (tr_books world_library)
                 (stdout world_library ++ ["User email has been updated"]) /\
    length (user_heap w1) = length (user_heap world_library) /\
    (forall u', u' <> 1%nat -> user_heap w1 !! u' = user_heap world_library !! u') /\
    tr_users w1 = tr_users world_library.
Proof.
  apply (change_email_keeps_registration 1%nat "bob@example.com" "bob@example.org"
           world_library
           (mkUser "Bob" "bob@example.com" [mkEntry ("Emma", 1003) 2%nat (Some 3)])
           (PyBook 0%nat) (Some 4));
    reflexivity.
Defined.

(** ** Errors of [add_user] and [add_book_to_user] *)

(** X10.  [add_user] with an email that fails the check raises [ValueError] and
    changes nothing. *)
Theorem add_user_invalid_email (n e : string) (user_books : option (list pyval))
    (w : world) :
  User.check_email_is_valid e = false ->
  TomeRater.add_user n e user_books w
  = (Raise (ValueError "Please enter a valid email"), w).
Proof.
  intros He. unfold TomeRater.add_user. rewrite He. reflexivity.
Qed.

Lemma add_user_invalid_email_witness :
  TomeRater.add_user "Bob" "not-an-email" (Some [PyBook 0%nat]) world_fresh
  = (Raise (ValueError "Please enter a valid email"), world_fresh).
Proof.
  apply (add_user_invalid_email "Bob" "not-an-email" (Some [PyBook 0%nat]) world_fresh).
  reflexivity.
Defined.

(** X14.  For a registered user, [add_book_to_user] with something that is not a
    [Book] raises the [TypeError] of [read_book], and neither the user nor
    the catalog changes. *)
Theorem add_book_to_user_not_a_book (w : world) (e : string) (u : uref)
    (book : pyval) (rating : option Z) :
  User.check_email_is_valid e = true ->
  sd_get e (tr_users w) = Some u ->
  (forall b, book <> PyBook b) ->
  TomeRater.add_book_to_user book e rating w
  = (Raise (TypeError "The book must be a Book object"), w).
Proof.
  intros He Hu Hbook.
  unfold TomeRater.add_book_to_user, TomeRater.is_existing_user.
  rewrite He. run. simpl. rewrite sd_contains_get, Hu. simpl. rewrite Hu.
  destruct book as [| b | repr]; try reflexivity.
  exfalso. apply (Hbook b). reflexivity.
Qed.

Lemma add_book_to_user_not_a_book_witness :
  TomeRater.add_book_to_user (PyOther "'Dune'") "alice@example.com" (Some 4) world_fresh
  = (Raise (TypeError "The book must be a Book object"), world_fresh).
Proof.
  apply (add_book_to_user_not_a_book world_fresh "alice@example.com" 0%nat
           (PyOther "'Dune'") (Some 4)); [reflexivity | reflexivity | discriminate].
Defined.

Lemma sd_get_set_other {V} (k k' : string) (v : V) (d : list (string * V)) :
  k <> k' -> sd_get k' (sd_set k v d) = sd_get k' d.
Proof.
  intros Hne. induction d as [| [k0 v0] d IH]; simpl.
  - destruct (String.eqb k k') eqn:E; [| reflexivity].
    apply String.eqb_eq in E. contradiction.
  - destruct (String.eqb k0 k) eqn:E0; simpl.
    + apply String.eqb_eq in E0. subst k0.
      destruct (String.eqb k k') eqn:E; [| reflexivity].
      apply String.eqb_eq in E. contradiction.
    + rewrite IH. reflexivity.
Qed.

(** X11.  [add_user] with a valid email that is not registered creates a user
    without books and registers it under that email; the users registered
    under other emails stay, and books and catalog are untouched. *)
Theorem add_user_new (n e : string) (w : world) :
  User.check_email_is_valid e = true ->
  sd_get e (tr_users w) = None ->
  exists w1,
    TomeRater.add_user n e None w = (Ok tt, w1) /\
    sd_get e (tr_users w1) = Some (length (user_heap w)) /\
    user_heap w1 = user_heap w ++ [mkUser n e []] /\
    (forall e', e' <> e -> sd_get e' (tr_users w1) = sd_get e' (tr_users w)) /\
    book_heap w1 = book_heap w /\ tr_books w1 = tr_books w /\ stdout w1 = stdout w.
Proof.
  intros He Hnone.
  unfold TomeRater.add_user, TomeRater.is_existing_user.
  rewrite He. run. simpl. rewrite sd_contains_get, Hnone. simpl.
  eexists. split; [reflexivity |]. simpl.
  split; [apply sd_get_set_same |]. split; [reflexivity |].
  split; [| auto].
  intros e' Hne. apply sd_get_set_other. congruence.
Qed.

Lemma add_user_new_witness :
  exists w1,
    TomeRater.add_user "Bob" "bob@example.com" None world_fresh = (Ok tt, w1) /\
    sd_get "bob@example.com" (tr_users w1) = Some (length (user_heap world_fresh)) /\
    user_heap w1 = user_heap world_fresh ++ [mkUser "Bob" "bob@example.com" []] /\
    (forall e', e' <> "bob@example.com" ->
                sd_get e' (tr_users w1) = sd_get e' (tr_users world_fresh)) /\
    book_heap w1 = book_heap world_fresh /\ tr_books w1 = tr_books world_fresh /\
    stdout w1 = stdout world_fresh.
Proof.
  apply (add_user_new "Bob" "bob@example.com" world_fresh); reflexivity.
Defined.

(** ** What a successful read changes *)

Lemma rated_hash (o : book_obj) (rating : option Z) :
  book_hash (rated o rating) = book_hash o.
Proof. destruct rating as [r |]; simpl; [destruct (r =? 0) |]; reflexivity. Qed.

Lemma rated_price (o : book_obj) (rating : option Z) :
  price (rated o rating) = price o.
Proof. destruct rating as [r |]; simpl; [destruct (r =? 0) |]; reflexivity. Qed.

Lemma same_hashes_rated (h : list book_obj) (b : bref) (o : book_obj)
    (rating : option Z) :
  h !! b = Some o -> same_hashes h (<[b := rated o rating]> h).
Proof.
  intros Hb r'. destruct (decide (b = r')) as [<- | Hne].
  - rewrite list_lookup_insert_eq by (eapply lookup_lt_Some; eauto).
    rewrite Hb. simpl. rewrite rated_hash. reflexivity.
  - rewrite list_lookup_insert_ne by assumption. reflexivity.
Qed.

Lemma read_book_effect (u : uref) (b : bref) (rating : option Z) (w : world)
    (uo : user_obj) (bo : book_obj) :
  user_heap w !! u = Some uo ->
  book_heap w !! b = Some bo ->
  valid_rating rating ->
  User.read_book u (PyBook b) rating w =
    (Ok tt,
     mkWorld (<[b := rated bo rating]> (book_heap w))
             (<[u := mkUser (name uo) (email uo)
                            (bd_set (book_heap w) (book_hash bo) b rating (books uo))]>
                (user_heap w))
             (tr_users w) (tr_books w) (stdout w)).
Proof.
  intros Hu Hb Hvalid.
  unfold User.read_book, User.setitem_books, Book.check_rating_is_valid.
  destruct rating as [r |]; simpl in Hvalid.
  - apply in_range_0_5_spec in Hvalid as Hin. rewrite Hin. run. simpl.
    rewrite Hu, Hb. simpl. destruct (r =? 0) eqn:Hr; simpl.
    + rewrite (list_insert_id _ _ _ Hb). reflexivity.
    + unfold Book.add_rating, Book.check_rating_is_valid, Book.append_rating.
      rewrite Hin. run. simpl. rewrite Hb. reflexivity.
  - run. simpl. rewrite Hu, Hb. simpl.
    rewrite (list_insert_id _ _ _ Hb). reflexivity.
Qed.

(** The world after a successful [add_book_to_user]: the book object may
    get the rating, the user's [books] gets the entry, and the read count
    of the book becomes one more than it was (1 without an entry). *)
Lemma add_book_to_user_effect (w : world) (e : string) (u : uref) (b : bref)
    (rating : option Z) (uo : user_obj) (bo : book_obj) :
  User.check_email_is_valid e = true ->
  sd_get e (tr_users w) = Some u ->
  user_heap w !! u = Some uo ->
  book_heap w !! b = Some bo ->
  valid_rating rating ->
  TomeRater.add_book_to_user (PyBook b) e rating w =
    (Ok tt,
     mkWorld (<[b := rated bo rating]> (book_heap w))
             (<[u := mkUser (name uo) (email uo)
                            (bd_set (book_heap w) (book_hash bo) b rating (books uo))]>
                (user_heap w))
             (tr_users w)
             (bd_set (book_heap w) (book_hash bo) b (read_count w b + 1) (tr_books w))
             (stdout w)).
Proof.
  intros Hvalid Hreg Hu Hb Hrating.
  pose proof (read_book_effect u b rating w uo bo Hu Hb Hrating) as Hrun.
  pose proof (same_hashes_rated (book_heap w) b bo rating Hb) as Hsame.
  assert (Hb' : <[b := rated bo rating]> (book_heap w) !! b = Some (rated bo rating))
    by (apply list_lookup_insert_eq; eapply lookup_lt_Some; eauto).
  unfold TomeRater.add_book_to_user, TomeRater.is_existing_user.
  rewrite Hvalid. cbn [negb]. unfold bind at 1. unfold bind at 1. unfold get_tr_users at 1.
  unfold ret at 1. rewrite sd_contains_get, Hreg.
  unfold bind at 1. unfold get_tr_users at 1. rewrite Hreg.
  unfold bind at 1. rewrite Hrun.
  unfold TomeRater.check_book_in_catalog, TomeRater.contains_book,
    TomeRater.increment_books, TomeRater.setitem_books. run. simpl.
  rewrite Hb', rated_hash. unfold bd_contains, read_count. rewrite Hb.
  rewrite <- (bd_get_same_hashes _ _ _ _ _ Hsame).
  destruct (bd_get (book_heap w) (book_hash bo) b (tr_books w)) as [n |] eqn:Hget; simpl;
    repeat (progress (rewrite ?Hb', ?rated_hash, <- ?(bd_get_same_hashes _ _ _ _ _ Hsame),
                        ?Hget; simpl));
    rewrite <- (bd_set_same_hashes _ _ _ _ _ _ Hsame); reflexivity.
Qed.

Lemma hash_eqb_eq (h1 h2 : hash_t) : hash_eqb h1 h2 = true <-> h1 = h2.
Proof.
  destruct h1 as [t1 i1], h2 as [t2 i2]. unfold hash_eqb. simpl.
  rewrite andb_true_iff, String.eqb_eq, Z.eqb_eq. split.
  - intros [-> ->]. reflexivity.
  - intros [= -> ->]. auto.
Qed.

Lemma bd_set_absent {V} (h : list book_obj) (hk : hash_t) (k : bref) (v : V)
    (d : bdict V) :
  bd_contains h hk k d = false -> bd_set h hk k v d = d ++ [mkEntry hk k v].
Proof.
  unfold bd_contains. induction d as [| e d IH]; simpl; [reflexivity |].
  destruct (key_matches h hk k e); [discriminate |].
  intros H. rewrite IH; auto.
Qed.

(** [d[k] = v] leaves the lookups of keys with another hash as they were. *)
Lemma bd_get_set_other {V} (h : list book_obj) (hk hk' : hash_t) (k k' : bref)
    (v : V) (d : bdict V) :
  hk <> hk' -> bd_get h hk' k' (bd_set h hk k v d) = bd_get h hk' k' d.
Proof.
  intros Hne.
  assert (Hnew : forall x : V, key_matches h hk' k' (mkEntry hk k x) = false).
  { intros x. unfold key_matches. simpl.
    destruct (hash_eqb hk hk') eqn:E; [| reflexivity].
    apply hash_eqb_eq in E. contradiction. }
  induction d as [| e d IH]; simpl.
  - rewrite Hnew. reflexivity.
  - destruct (key_matches h hk k e) eqn:He; simpl.
    + assert (Hhash : e_hash e = hk).
      { unfold key_matches in He. apply andb_true_iff in He as [He _].
        apply hash_eqb_eq in He. exact He. }
      assert (Hold : key_matches h hk' k' e = false).
      { unfold key_matches. rewrite Hhash.
        destruct (hash_eqb hk hk') eqn:E; [| reflexivity].
        apply hash_eqb_eq in E. contradiction. }
      rewrite key_matches_val, Hold. reflexivity.
    + rewrite IH. reflexivity.
Qed.

(** ** Reading a book for the first time, and what a read leaves alone *)

(** X15.  The first read of a book, by a user who has no entry for it and with no
    entry for it in the catalog: the catalog gets a new last entry with the
    count 1, keyed by the book object passed, and the user's [books] a new
    last entry with the rating; the book gets the rating unless it is
    [None] or 0. *)
Theorem add_book_to_user_first_read (w : world) (e : string) (u : uref) (b : bref)
    (rating : option Z) (uo : user_obj) (bo : book_obj) :
  User.check_email_is_valid e = true ->
  sd_get e (tr_users w) = Some u ->
  user_heap w !! u = Some uo ->
  book_heap w !! b = Some bo ->
  valid_rating rating ->
  hashes_current (book_heap w) (tr_books w) = true ->
  hashes_current (book_heap w) (books uo) = true ->
  bd_contains (book_heap w) (book_hash bo) b (books uo) = false ->
  bd_contains (book_heap w) (book_hash bo) b (tr_books w) = false ->
  exists w',
    TomeRater.add_book_to_user (PyBook b) e rating w = (Ok tt, w') /\
    tr_books w' = tr_books w ++ [mkEntry (book_hash bo) b 1] /\
    user_heap w' !! u
    = Some (mkUser (name uo) (email uo) (books uo ++ [mkEntry (book_hash bo) b rating])) /\
    book_heap w' !! b = Some (rated bo rating) /\
    read_count w' b = 1.
Proof.
  intros He Hreg Hu Hb Hrating _ _ Hnew Hcat.
  rewrite (add_book_to_user_effect w e u b rating uo bo He Hreg Hu Hb Hrating).
  eexists. split; [reflexivity |]. simpl.
  assert (Hcount : read_count w b = 0).
  { unfold read_count. rewrite Hb. unfold bd_contains in Hcat.
    destruct (bd_get (book_heap w) (book_hash bo) b (tr_books w)); [discriminate |].
    reflexivity. }
  assert (Hb' : <[b := rated bo rating]> (book_heap w) !! b = Some (rated bo rating))
    by (apply list_lookup_insert_eq; eapply lookup_lt_Some; eauto).
  rewrite Hcount. split; [apply bd_set_absent; exact Hcat |].
  split.
  { rewrite list_lookup_insert_eq by (eapply lookup_lt_Some; eauto).
    rewrite (bd_set_absent _ _ _ _ _ Hnew). reflexivity. }
  split; [exact Hb' |].
  unfold read_count. simpl. rewrite Hb', rated_hash.
  rewrite <- (bd_get_same_hashes _ _ _ _ _ (same_hashes_rated _ _ _ rating Hb)).
  rewrite bd_get_set_same. reflexivity.
Qed.

Lemma add_book_to_user_first_read_witness :
  exists w',
    TomeRater.add_book_to_user (PyBook 0%nat) "alice@example.com" (Some 4) world_fresh
    = (Ok tt, w') /\
    tr_books w' = tr_books world_fresh ++ [mkEntry ("Dune", 1001) 0%nat 1] /\
    user_heap w' !! 0%nat
    = Some (mkUser "Alice" "alice@example.com" ([] ++ [mkEntry ("Dune", 1001) 0%nat (Some 4)])) /\
    book_heap w' !! 0%nat = Some (rated (Book.init "Dune" 1001 20) (Some 4)) /\
    read_count w' 0%nat = 1.
Proof.
  apply (add_book_to_user_first_read world_fresh "alice@example.com" 0%nat 0%nat (Some 4)
           (User.init "Alice" "alice@example.com") (Book.init "Dune" 1001 20));
    try reflexivity.
  simpl. lia.
Defined.

(** X16.  A successful [add_book_to_user] for a book leaves alone the read count
    of every book with another title or isbn, every other book object, and
    every other user object. *)
Theorem add_book_to_user_frame (w : world) (e : string) (u : uref) (b : bref)
    (rating : option Z) (uo : user_obj) (bo : book_obj) :
  User.check_email_is_valid e = true ->
  sd_get e (tr_users w) = Some u ->
  user_heap w !! u = Some uo ->
  book_heap w !! b = Some bo ->
  valid_rating rating ->
  hashes_current (book_heap w) (tr_books w) = true ->
  exists w',
    TomeRater.add_book_to_user (PyBook b) e rating w = (Ok tt, w') /\
    (forall b' bo', book_heap w !! b' = Some bo' -> book_hash bo' <> book_hash bo ->
                    read_count w' b' = read_count w b') /\
    (forall b', b' <> b -> book_heap w' !! b' = book_heap w !! b') /\
    (forall u', u' <> u -> user_heap w' !! u' = user_heap w !! u') /\
    tr_users w' = tr_users w /\ stdout w' = stdout w.
Proof.
  intros He Hreg Hu Hb Hrating _.
  rewrite (add_book_to_user_effect w e u b rating uo bo He Hreg Hu Hb Hrating).
  eexists. split; [reflexivity |]. simpl.
  split; [| split; [| split; [| split; reflexivity]]].
  - intros b' bo' Hb' Hne.
    assert (Hbb : b <> b') by (intros ->; rewrite Hb in Hb'; congruence).
    unfold read_count. simpl.
    rewrite (list_lookup_insert_ne _ _ _ _ Hbb), Hb'.
    rewrite <- (bd_get_same_hashes _ _ _ _ _ (same_hashes_rated _ _ _ rating Hb)).
    rewrite bd_get_set_other by congruence. reflexivity.
  - intros b' Hne. apply list_lookup_insert_ne. congruence.
  - intros u' Hne. apply list_lookup_insert_ne. congruence.
Qed.

Lemma add_book_to_user_frame_witness :
  exists w',
    TomeRater.add_book_to_user (PyBook 1%nat) "bob@example.com" (Some 1) world_library
    = (Ok tt, w') /\
    (forall b' bo', book_heap world_library !! b' = Some bo' ->
                    book_hash bo' <> book_hash (mkBook "Foo" 1002 5 [] Plain) ->
                    read_count w' b' = read_count world_library b') /\
    (forall b', b' <> 1%nat -> book_heap w' !! b' = book_heap world_library !! b') /\
    (forall u', u' <> 1%nat -> user_heap w' !! u' = user_heap world_library !! u') /\
    tr_users w' = tr_users world_library /\ stdout w' = stdout world_library.
Proof.
  apply (add_book_to_user_frame world_library "bob@example.com" 1%nat 1%nat (Some 1)
           (mkUser "Bob" "bob@example.com" [mkEntry ("Emma", 1003) 2%nat (Some 3)])
           (mkBook "Foo" 1002 5 [] Plain));
    try reflexivity.
  simpl. lia.
Defined.

(** X17.  When the catalog has an entry for the book, [add_book_to_user] keeps the
    key objects of the catalog, and the rating goes to the object passed
    and to no other object.  So a rating given through an equal copy of a
    catalog book does not reach the book object the catalog holds. *)
Theorem add_book_to_user_rates_passed_object (w : world) (e : string) (u : uref)
    (b : bref) (rating : option Z) (uo : user_obj) (bo : book_obj) :
  User.check_email_is_valid e = true ->
  sd_get e (tr_users w) = Some u ->
  user_heap w !! u = Some uo ->
  book_heap w !! b = Some bo ->
  valid_rating rating ->
  hashes_current (book_heap w) (tr_books w) = true ->
  bd_contains (book_heap w) (book_hash bo) b (tr_books w) = true ->
  exists w',
    TomeRater.add_book_to_user (PyBook b) e rating w = (Ok tt, w') /\
    bd_keys (tr_books w') = bd_keys (tr_books w) /\
    book_heap w' !! b = Some (rated bo rating) /\
    (forall k, k <> b -> book_heap w' !! k = book_heap w !! k) /\
    (forall k, k <> b -> avg_at (book_heap w') k = avg_at (book_heap w) k).
Proof.
  intros He Hreg Hu Hb Hrating _ Hcat.
  rewrite (add_book_to_user_effect w e u b rating uo bo He Hreg Hu Hb Hrating).
  eexists. split; [reflexivity |]. simpl.
  split; [apply bd_set_keys_present; exact Hcat |].
  split; [apply list_lookup_insert_eq; eapply lookup_lt_Some; eauto |].
  split.
  - intros k Hne. apply list_lookup_insert_ne. congruence.
  - intros k Hne. unfold avg_at. rewrite list_lookup_insert_ne by congruence.
    reflexivity.
Qed.

Lemma add_book_to_user_rates_passed_object_witness :
  exists w',
    TomeRater.add_book_to_user (PyBook 1%nat) "alice@example.com" (Some 4) world_copy
    = (Ok tt, w') /\
    bd_keys (tr_books w') = bd_keys (tr_books world_copy) /\
    book_heap w' !! 1%nat = Some (rated (Book.init "Dune" 1001 8) (Some 4)) /\
    (forall k, k <> 1%nat -> book_heap w' !! k = book_heap world_copy !! k) /\
    (forall k, k <> 1%nat -> avg_at (book_heap w') k = avg_at (book_heap world_copy) k).
Proof.
  apply (add_book_to_user_rates_passed_object world_copy "alice@example.com" 0%nat 1%nat
           (Some 4) (mkUser "Alice" "alice@example.com" [mkEntry ("Dune", 1001) 0%nat None])
           (Book.init "Dune" 1001 8));
    try reflexivity.
  simpl. lia.
Defined.

(** In [world_copy], after Alice rates the copy of Dune with 4, Dune has
    been read twice, the catalog still holds the first object, which has no
    rating, and [highest_rated_book] returns the reference book. *)
Example rating_through_a_copy :
  read_count
    (snd (TomeRater.add_book_to_user (PyBook 1%nat) "alice@example.com" (Some 4)
            world_copy)) 0%nat = 2 /\
  fst (TomeRater.highest_rated_book
         (snd (TomeRater.add_book_to_user (PyBook 1%nat) "alice@example.com" (Some 4)
                 world_copy))) = Ok 2%nat.
Proof. split; reflexivity. Qed.

(** ** Creating books *)

Lemma scan_isbn_absent (i : Z) (catalog : list bref) (w : world) :
  Forall (fun k => exists o, book_heap w !! k = Some o /\ isbn o <> i) catalog ->
  TomeRater.scan_isbn i catalog w = (Ok false, w).
Proof.
  induction 1 as [| k catalog (o & Ho & Hi) Hall IH]; [reflexivity |].
  simpl. run. rewrite Ho. apply Z.eqb_neq in Hi. rewrite Hi. exact IH.
Qed.

Lemma create_book_fresh (w : world) (i : Z) (t : string) (p : Z) :
  Forall (fun k => exists o, book_heap w !! k = Some o /\ isbn o <> i)
         (bd_keys (tr_books w)) ->
  TomeRater.create_book t i p w
  = (Ok (Some (length (book_heap w))),
     mkWorld (book_heap w ++ [mkBook t i p [] Plain]) (user_heap w) (tr_users w)
             (tr_books w) (stdout w)).
Proof.
  intros Hall.
  unfold TomeRater.create_book, TomeRater.check_isbn_in_catalog,
    TomeRater.catalog_generator.
  run. simpl. rewrite (scan_isbn_absent i _ w Hall). reflexivity.
Qed.

(** X19.  When no book of the catalog has the isbn [i], [create_book] returns a
    new book object with the title, isbn and price asked for and without
    ratings, and prints nothing.  The object is not put in the catalog, so
    a second [create_book] with the same isbn returns another new object:
    the isbn check only sees books that have been read. *)
Theorem create_book_twice (w : world) (i : Z) (t t' : string) (p p' : Z) :
  Forall (fun k => exists o, book_heap w !! k = Some o /\ isbn o <> i)
         (bd_keys (tr_books w)) ->
  exists w1 w2,
    TomeRater.create_book t i p w = (Ok (Some (length (book_heap w))), w1) /\
    book_heap w1 = book_heap w ++ [mkBook t i p [] Plain] /\
    tr_books w1 = tr_books w /\ user_heap w1 = user_heap w /\
    tr_users w1 = tr_users w /\ stdout w1 = stdout w /\
    TomeRater.create_book t' i p' w1 = (Ok (Some (S (length (book_heap w)))), w2) /\
    book_heap w2 = book_heap w ++ [mkBook t i p [] Plain; mkBook t' i p' [] Plain] /\
    tr_books w2 = tr_books w.
Proof.
  intros Hall.
  set (w1 := mkWorld (book_heap w ++ [mkBook t i p [] Plain]) (user_heap w) (tr_users w)
                     (tr_books w) (stdout w)).
  assert (Hall1 : Forall (fun k => exists o, book_heap w1 !! k = Some o /\ isbn o <> i)
                         (bd_keys (tr_books w1))).
  { simpl. eapply Forall_impl; [exact Hall |].
    intros k (o & Ho & Hi). exists o. split; [| exact Hi].
    apply lookup_app_l_Some. exact Ho. }
  exists w1. eexists. split; [apply create_book_fresh; exact Hall |].
  repeat (split; [reflexivity |]).
  split.
  - rewrite (create_book_fresh w1 i t' p' Hall1). simpl.
    rewrite length_app. simpl. rewrite Nat.add_1_r. reflexivity.
  - simpl. split; [| reflexivity]. rewrite <- app_assoc. reflexivity.
Qed.

Lemma create_book_twice_witness :
  exists w1 w2,
    TomeRater.create_book "Foo" 1002 5 world_unrated
    = (Ok (Some (length (book_heap world_unrated))), w1) /\
    book_heap w1 = book_heap world_unrated ++ [mkBook "Foo" 1002 5 [] Plain] /\
    tr_books w1 = tr_books world_unrated /\ user_heap w1 = user_heap world_unrated /\
    tr_users w1 = tr_users world_unrated /\ stdout w1 = stdout world_unrated /\
    TomeRater.create_book "Bar" 1002 7 w1
    = (Ok (Some (S (length (book_heap world_unrated)))), w2) /\
    book_heap w2 = book_heap world_unrated
                   ++ [mkBook "Foo" 1002 5 [] Plain; mkBook "Bar" 1002 7 [] Plain] /\
    tr_books w2 = tr_books world_unrated.
Proof.
  apply (create_book_twice world_unrated 1002 "Foo" "Bar" 5 7).
  repeat constructor. exists (Book.init "Dune" 1001 20). split; [reflexivity | discriminate].
Defined.

(** ** The worth of a user's collection *)

(** X21.  For an email no user is registered under, valid or not,
    [get_worth_of_user] prints a line and returns nothing; it raises
    nothing and changes nothing. *)
Theorem get_worth_of_user_unknown (e : string) (w : world) :
  sd_get e (tr_users w) = None ->
  TomeRater.get_worth_of_user e w
  = (Ok None, put_line (e ++ " is not an existing user email") w).
Proof.
  intros Hnone. unfold TomeRater.get_worth_of_user. run.
  rewrite sd_contains_get, Hnone. reflexivity.
Qed.

Lemma get_worth_of_user_unknown_witness :
  TomeRater.get_worth_of_user "bob" world_unrated
  = (Ok None, put_line ("bob" ++ " is not an existing user email") world_unrated).
Proof.
  apply (get_worth_of_user_unknown "bob" world_unrated). reflexivity.
Defined.

Lemma sum_prices_spec (keys : list bref) (acc : Z) (w : world) :
  Forall (fun k => exists o, book_heap w !! k = Some o) keys ->
  TomeRater.sum_prices keys acc w = (Ok (acc + total_price (book_heap w) keys), w).
Proof.
  intros Hall. revert acc. induction Hall as [| k keys [o Ho] Hall IH]; intros acc.
  - simpl. unfold ret. rewrite Z.add_0_r. reflexivity.
  - simpl. run. rewrite Ho. rewrite IH. rewrite Z.add_assoc. reflexivity.
Qed.

Lemma keys_valid_Forall {V} (h : list book_obj) (d : bdict V) :
  keys_valid h d = true ->
  Forall (fun k => exists o, h !! k = Some o) (bd_keys d).
Proof.
  intros Hv. apply List.Forall_forall. intros k Hk.
  apply lookup_lt_is_Some. eapply keys_valid_In; eauto.
Qed.

Lemma get_worth_of_user_known (e : string) (u : uref) (uo : user_obj) (w : world) :
  sd_get e (tr_users w) = Some u ->
  user_heap w !! u = Some uo ->
  keys_valid (book_heap w) (books uo) = true ->
  TomeRater.get_worth_of_user e w
  = (Ok (Some (total_price (book_heap w) (bd_keys (books uo)))), w).
Proof.
  intros Hreg Hu Hv. unfold TomeRater.get_worth_of_user. run.
  rewrite sd_contains_get, Hreg, Hu. unfold User.get_books_collection.
  rewrite (sum_prices_spec _ 0 w (keys_valid_Forall _ _ Hv)). reflexivity.
Qed.

Lemma total_price_app (h : list book_obj) (l1 l2 : list bref) :
  total_price h (l1 ++ l2) = total_price h l1 + total_price h l2.
Proof.
  unfold total_price. induction l1 as [| k l1 IH]; simpl; [reflexivity |].
  rewrite IH. destruct (h !! k); lia.
Qed.

Lemma total_price_same (h h' : list book_obj) (keys : list bref) :
  (forall k, option_map price (h' !! k) = option_map price (h !! k)) ->
  total_price h' keys = total_price h keys.
Proof.
  intros Hsame. unfold total_price. induction keys as [| k keys IH]; simpl; [reflexivity |].
  rewrite IH. specialize (Hsame k).
  destruct (h' !! k), (h !! k); simpl in Hsame; congruence.
Qed.

Lemma keys_valid_length {V} (h h' : list book_obj) (d : bdict V) :
  length h' = length h -> keys_valid h' d = keys_valid h d.
Proof. intros Hl. unfold keys_valid. rewrite Hl. reflexivity. Qed.

Lemma keys_valid_bd_set {V} (h : list book_obj) (hk : hash_t) (k : bref) (v : V)
    (d : bdict V) :
  (k < length h)%nat -> keys_valid h d = true -> keys_valid h (bd_set h hk k v d) = true.
Proof.
  intros Hk. unfold keys_valid. induction d as [| e d IH]; simpl.
  - intros _. apply Nat.ltb_lt in Hk. rewrite Hk. reflexivity.
  - rewrite andb_true_iff. intros [He Hd].
    destruct (key_matches h hk k e); simpl; rewrite He; simpl; auto.
Qed.

(** X22.  The worth of a user's collection is the sum of the prices of the
    books in it, each book once: [get_worth_of_user] returns that sum and
    changes nothing; after the user reads a book that is not in the
    collection the worth is this sum plus the price of the book, and after
    the user reads a book of the collection again it is this sum,
    whatever the ratings. *)
Theorem worth_after_reading (w : world) (e : string) (u : uref) (b : bref)
    (rating : option Z) (uo : user_obj) (bo : book_obj) :
  User.check_email_is_valid e = true ->
  sd_get e (tr_users w) = Some u ->
  user_heap w !! u = Some uo ->
  book_heap w !! b = Some bo ->
  valid_rating rating ->
  hashes_current (book_heap w) (books uo) = true ->
  keys_valid (book_heap w) (books uo) = true ->
  exists w',
    TomeRater.get_worth_of_user e w
    = (Ok (Some (total_price (book_heap w) (bd_keys (books uo)))), w) /\
    TomeRater.add_book_to_user (PyBook b) e rating w = (Ok tt, w') /\
    TomeRater.get_worth_of_user e w'
    = (Ok (Some (total_price (book_heap w) (bd_keys (books uo)) +
                 (if bd_contains (book_heap w) (book_hash bo) b (books uo)
                  then 0 else price bo))), w').
Proof.
  intros He Hreg Hu Hb Hrating _ Hv.
  eexists.
  split; [apply (get_worth_of_user_known e u uo w Hreg Hu Hv) |].
  split; [apply (add_book_to_user_effect w e u b rating uo bo He Hreg Hu Hb Hrating) |].
  assert (Hblt : (b < length (book_heap w))%nat) by (eapply lookup_lt_Some; eauto).
  assert (Hult : (u < length (user_heap w))%nat) by (eapply lookup_lt_Some; eauto).
  set (h' := <[b := rated bo rating]> (book_heap w)).
  assert (Hprice : forall k, option_map price (h' !! k)
                             = option_map price (book_heap w !! k)).
  { intros k. unfold h'. destruct (decide (b = k)) as [<- | Hne].
    - rewrite list_lookup_insert_eq by exact Hblt. rewrite Hb. simpl.
      rewrite rated_price. reflexivity.
    - rewrite list_lookup_insert_ne by exact Hne. reflexivity. }
  assert (Hsum : total_price h' (bd_keys (bd_set (book_heap w) (book_hash bo) b rating
                                                 (books uo)))
                 = total_price (book_heap w) (bd_keys (books uo)) +
                   (if bd_contains (book_heap w) (book_hash bo) b (books uo)
                    then 0 else price bo)).
  { rewrite (total_price_same (book_heap w) h' _ Hprice).
    destruct (bd_contains (book_heap w) (book_hash bo) b (books uo)) eqn:Hc.
    - rewrite (bd_set_keys_present _ _ _ _ _ Hc). lia.
    - rewrite (bd_set_absent _ _ _ _ _ Hc). unfold bd_keys.
      rewrite map_app, total_price_app. cbn [map e_key].
      assert (H1 : total_price (book_heap w) [b] = price bo)
        by (unfold total_price; simpl; rewrite Hb; lia).
      rewrite H1. reflexivity. }
  erewrite get_worth_of_user_known; cycle 1.
  - simpl. exact Hreg.
  - simpl. apply list_lookup_insert_eq. exact Hult.
  - simpl. fold h'. rewrite (keys_valid_length (book_heap w) h')
      by (unfold h'; apply length_insert).
    apply keys_valid_bd_set; assumption.
  - simpl. fold h'. rewrite Hsum. reflexivity.
Qed.

Lemma worth_after_reading_witness :
  exists w',
    TomeRater.get_worth_of_user "bob@example.com" world_library
    = (Ok (Some (total_price (book_heap world_library)
                             (bd_keys [mkEntry ("Emma", 1003) 2%nat (Some 3)]))),
       world_library) /\
    TomeRater.add_book_to_user (PyBook 0%nat) "bob@example.com" None world_library
    = (Ok tt, w') /\
    TomeRater.get_worth_of_user "bob@example.com" w'
    = (Ok (Some (total_price (book_heap world_library)
                             (bd_keys [mkEntry ("Emma", 1003) 2%nat (Some 3)]) +
                 (if bd_contains (book_heap world_library) ("Dune", 1001) 0%nat
                       [mkEntry ("Emma", 1003) 2%nat (Some 3)]
                  then 0 else 20))), w').
Proof.
  apply (worth_after_reading world_library "bob@example.com" 1%nat 0%nat None
           (mkUser "Bob" "bob@example.com" [mkEntry ("Emma", 1003) 2%nat (Some 3)])
           (mkBook "Dune" 1001 20 [4] Plain));
    first [reflexivity | exact I].
Defined.

(** Bob's collection is worth 15, and 35 after he has read Dune. *)
Example worth_of_bob :
  fst (TomeRater.get_worth_of_user "bob@example.com" world_library) = Ok (Some 15) /\
  fst (TomeRater.get_worth_of_user "bob@example.com"
         (snd (TomeRater.add_book_to_user (PyBook 0%nat) "bob@example.com" None
                 world_library))) = Ok (Some 35).
Proof. split; reflexivity. Qed.

(** ** The most prolific readers and the most expensive books *)

Lemma insert_desc_map {A B} (key : B -> Z) (g : A -> B) (x : A) (l : list A) :
  insert_desc key (g x) (map g l) = map g (insert_desc (fun a => key (g a)) x l).
Proof.
  induction l as [| y l IH]; simpl; [reflexivity |].
  destruct (key (g x) <? key (g y)); simpl; [rewrite IH |]; reflexivity.
Qed.

(** Sorting the decorated list is sorting the list by the decoration. *)
Lemma sort_desc_map {A B} (key : B -> Z) (g : A -> B) (l : list A) :
  sort_desc key (map g l) = map g (sort_desc (fun a => key (g a)) l).
Proof.
  induction l as [| x l IH]; simpl; [reflexivity |].
  fold (sort_desc key (map g l)). fold (sort_desc (fun a => key (g a)) l).
  rewrite IH. apply insert_desc_map.
Qed.

Lemma decorate_users_spec (values : list uref) (w : world) :
  Forall (fun u => exists o, user_heap w !! u = Some o) values ->
  TomeRater.decorate_users values w
  = (Ok (map (fun u => (u, books_read (user_heap w) u)) values), w).
Proof.
  induction 1 as [| u values [o Ho] Hall IH]; [reflexivity |].
  simpl. run. rewrite Ho, IH. simpl. unfold books_read. rewrite Ho. reflexivity.
Qed.

Lemma title_price_list_spec (keys : list bref) (w : world) :
  Forall (fun k => exists o, book_heap w !! k = Some o) keys ->
  TomeRater.title_price_list keys w = (Ok (map (title_price_at (book_heap w)) keys), w).
Proof.
  induction 1 as [| k keys [o Ho] Hall IH]; [reflexivity |].
  simpl. run. rewrite Ho, IH. simpl. unfold title_price_at. rewrite Ho. reflexivity.
Qed.

Lemma slice_to_nonneg {A} (n : Z) (l : list A) :
  0 <= n -> slice_to n l = firstn (Z.to_nat n) l.
Proof.
  intros Hn. unfold slice_to. destruct (0 <=? n) eqn:Hc; [reflexivity |].
  apply Z.leb_gt in Hc. lia.
Qed.

(** X23.  For [n >= 0], [get_n_most_prolific_readers n] returns the first
    [min(n, number of registered users)] users of the registered users
    sorted by the number of books in their collections (rated or not),
    largest first, users with equal numbers in the order of [self.users];
    nothing changes. *)
Theorem get_n_most_prolific_readers_spec (w : world) (n : Z) :
  0 <= n ->
  Forall (fun u => exists o, user_heap w !! u = Some o) (map snd (tr_users w)) ->
  exists sorted,
    TomeRater.get_n_most_prolific_readers n w = (Ok (firstn (Z.to_nat n) sorted), w) /\
    length (firstn (Z.to_nat n) sorted) = Nat.min (Z.to_nat n) (length (tr_users w)) /\
    Permutation sorted (map snd (tr_users w)) /\
    StronglySorted (key_ge (books_read (user_heap w))) sorted /\
    (forall c, List.filter (has_key (books_read (user_heap w)) c) sorted =
               List.filter (has_key (books_read (user_heap w)) c) (map snd (tr_users w))).
Proof.
  intros Hn Hvalid.
  exists (sort_desc (books_read (user_heap w)) (map snd (tr_users w))).
  split; [| split; [| split; [| split]]].
  - unfold TomeRater.get_n_most_prolific_readers. run.
    rewrite (decorate_users_spec _ w Hvalid). rewrite slice_to_nonneg by exact Hn.
    rewrite (sort_desc_map snd (fun u => (u, books_read (user_heap w) u))).
    rewrite map_map. simpl. rewrite map_id. reflexivity.
  - rewrite length_firstn. f_equal.
    rewrite (Permutation_length (sort_desc_perm _ _)). apply length_map.
  - apply sort_desc_perm.
  - apply sort_desc_sorted.
  - intros c. apply sort_desc_stable.
Qed.

Lemma get_n_most_prolific_readers_spec_witness :
  exists sorted,
    TomeRater.get_n_most_prolific_readers 1 world_library
    = (Ok (firstn (Z.to_nat 1) sorted), world_library) /\
    length (firstn (Z.to_nat 1) sorted)
    = Nat.min (Z.to_nat 1) (length (tr_users world_library)) /\
    Permutation sorted (map snd (tr_users world_library)) /\
    StronglySorted (key_ge (books_read (user_heap world_library))) sorted /\
    (forall c, List.filter (has_key (books_read (user_heap world_library)) c) sorted =
               List.filter (has_key (books_read (user_heap world_library)) c)
                           (map snd (tr_users world_library))).
Proof.
  apply (get_n_most_prolific_readers_spec world_library 1); [lia |].
  repeat constructor; eexists; reflexivity.
Defined.

(** X24.  For [n >= 0], [get_n_most_expensive_books n] returns the first
    [min(n, size of the catalog)] pairs [(title, price)] of the books of
    the catalog sorted by price, largest first, pairs with equal prices in
    the order of [self.books]; nothing changes. *)
Theorem get_n_most_expensive_books_spec (w : world) (n : Z) :
  0 <= n ->
  keys_valid (book_heap w) (tr_books w) = true ->
  exists sorted,
    TomeRater.get_n_most_expensive_books n w = (Ok (firstn (Z.to_nat n) sorted), w) /\
    length (firstn (Z.to_nat n) sorted) = Nat.min (Z.to_nat n) (length (tr_books w)) /\
    Permutation sorted (map (title_price_at (book_heap w)) (bd_keys (tr_books w))) /\
    StronglySorted (key_ge snd) sorted /\
    (forall c, List.filter (has_key snd c) sorted =
               List.filter (has_key snd c)
                           (map (title_price_at (book_heap w)) (bd_keys (tr_books w)))).
Proof.
  intros Hn Hvalid.
  exists (sort_desc snd (map (title_price_at (book_heap w)) (bd_keys (tr_books w)))).
  split; [| split; [| split; [| split]]].
  - unfold TomeRater.get_n_most_expensive_books. run.
    rewrite (title_price_list_spec _ w (keys_valid_Forall _ _ Hvalid)).
    rewrite slice_to_nonneg by exact Hn. reflexivity.
  - rewrite length_firstn. f_equal.
    rewrite (Permutation_length (sort_desc_perm _ _)).
    unfold bd_keys. rewrite !length_map. reflexivity.
  - apply sort_desc_perm.
  - apply sort_desc_sorted.
  - intros c. apply sort_desc_stable.
Qed.

Lemma get_n_most_expensive_books_spec_witness :
  exists sorted,
    TomeRater.get_n_most_expensive_books 1 world_library
    = (Ok (firstn (Z.to_nat 1) sorted), world_library) /\
    length (firstn (Z.to_nat 1) sorted)
    = Nat.min (Z.to_nat 1) (length (tr_books world_library)) /\
    Permutation sorted (map (title_price_at (book_heap world_library))
                            (bd_keys (tr_books world_library))) /\
    StronglySorted (key_ge snd) sorted /\
    (forall c, List.filter (has_key snd c) sorted =
               List.filter (has_key snd c)
                           (map (title_price_at (book_heap world_library))
                                (bd_keys (tr_books world_library)))).
Proof.
  apply (get_n_most_expensive_books_spec world_library 1); [lia | reflexivity].
Defined.

(** In [world_library] Alice has read most books, and Dune is the most
    expensive book of the catalog. *)
Example most_prolific_and_most_expensive :
  fst (TomeRater.get_n_most_prolific_readers 1 world_library) = Ok [0%nat] /\
  fst (TomeRater.get_n_most_expensive_books 1 world_library) = Ok [("Dune", 20)].
Proof. split; reflexivity. Qed.

(** ** The most read book *)

Lemma bd_get_of_match {V} (h : list book_obj) (hk : hash_t) (k : bref)
    (d : bdict V) (e : entry V) :
  In e d -> key_matches h hk k e = true -> exists v, bd_get h hk k d = Some v.
Proof.
  induction d as [| e' d IH]; simpl; [tauto |].
  intros [-> | Hin] Hm.
  - rewrite Hm. eauto.
  - destruct (key_matches h hk k e'); eauto.
Qed.

(** With the hashes of the keys up to date, [self.books[k]] finds a value
    for every key [k] of the catalog. *)
Lemma getitem_books_current (w : world) (k : bref) :
  hashes_current (book_heap w) (tr_books w) = true ->
  In k (bd_keys (tr_books w)) ->
  TomeRater.getitem_books k w = (Ok (read_count w k), w).
Proof.
  intros Hcur Hk. unfold bd_keys in Hk. apply in_map_iff in Hk as (e & <- & Hin).
  unfold hashes_current in Hcur. rewrite forallb_forall in Hcur.
  specialize (Hcur e Hin).
  destruct (book_heap w !! e_key e) as [o |] eqn:Ho; [| discriminate].
  destruct (bd_get_of_match (book_heap w) (book_hash o) (e_key e) (tr_books w) e Hin)
    as [v Hv].
  { unfold key_matches. rewrite Hcur, Nat.eqb_refl. reflexivity. }
  unfold TomeRater.getitem_books, read_count. run. rewrite Ho, Hv. reflexivity.
Qed.

Lemma max_loop_spec (w : world) (keys : list bref) :
  (forall k, In k keys -> TomeRater.getitem_books k w = (Ok (read_count w k), w)) ->
  forall best best_val,
  exists r,
    TomeRater.max_loop keys best best_val w = (Ok r, w) /\
    ((r = best /\ forall k, In k keys -> read_count w k <= best_val) \/
     (exists i,
        keys !! i = Some r /\
        best_val < read_count w r /\
        (forall j k, (j < i)%nat -> keys !! j = Some k ->
                     read_count w k < read_count w r) /\
        (forall k, In k keys -> read_count w k <= read_count w r))).
Proof.
  induction keys as [| k keys IH]; intros Hget best best_val.
  - exists best. split; [reflexivity |]. left. split; [reflexivity |]. intros k [].
  - assert (Hrest : forall k', In k' keys ->
                      TomeRater.getitem_books k' w = (Ok (read_count w k'), w))
      by (intros k' Hk'; apply Hget; right; exact Hk').
    simpl. unfold bind at 1. rewrite (Hget k (or_introl eq_refl)).
    destruct (best_val <? read_count w k) eqn:Hcmp.
    + apply Z.ltb_lt in Hcmp.
      destruct (IH Hrest k (read_count w k)) as (r & Hrun & Hr).
      exists r. split; [exact Hrun |]. right.
      destruct Hr as [[-> Hle] | (i & Hi & Hlt & Hbefore & Hle)].
      * exists O. split; [reflexivity |]. split; [exact Hcmp |].
        split; [intros j k' Hj; lia |].
        intros k' [<- | Hin]; [lia | auto].
      * exists (S i). split; [exact Hi |]. split; [lia |]. split.
        -- intros [| j] k' Hj Hk'; simpl in Hk'.
           ++ injection Hk' as <-. exact Hlt.
           ++ apply (Hbefore j k'); [lia | exact Hk'].
        -- intros k' [<- | Hin]; [lia | auto].
    + apply Z.ltb_ge in Hcmp.
      destruct (IH Hrest best best_val) as (r & Hrun & Hr).
      exists r. split; [exact Hrun |].
      destruct Hr as [[-> Hle] | (i & Hi & Hlt & Hbefore & Hle)].
      * left. split; [reflexivity |].
        intros k' [<- | Hin]; [exact Hcmp | auto].
      * right. exists (S i). split; [exact Hi |]. split; [exact Hlt |]. split.
        -- intros [| j] k' Hj Hk'; simpl in Hk'.
           ++ injection Hk' as <-. lia.
           ++ apply (Hbefore j k'); [lia | exact Hk'].
        -- intros k' [<- | Hin]; [lia | auto].
Qed.

(** X25.  On a catalog that is not empty, [most_read_book] returns the first
    book, in the order of [self.books], whose read count is the largest,
    and changes nothing. *)
Theorem most_read_book_spec (w : world) :
  tr_books w <> [] ->
  hashes_current (book_heap w) (tr_books w) = true ->
  exists r i,
    TomeRater.most_read_book w = (Ok r, w) /\
    bd_keys (tr_books w) !! i = Some r /\
    (forall k, In k (bd_keys (tr_books w)) -> read_count w k <= read_count w r) /\
    (forall j k, (j < i)%nat -> bd_keys (tr_books w) !! j = Some k ->
                 read_count w k < read_count w r).
Proof.
  intros Hne Hcur.
  pose proof (fun k => getitem_books_current w k Hcur) as Hget.
  unfold TomeRater.most_read_book. unfold bind at 1. unfold get_tr_books at 1.
  destruct (bd_keys (tr_books w)) as [| k0 keys] eqn:Hkeys.
  { destruct (tr_books w); [contradiction | discriminate]. }
  unfold bind at 1. rewrite (Hget k0 (or_introl eq_refl)).
  destruct (max_loop_spec w keys (fun k Hk => Hget k (or_intror Hk)) k0 (read_count w k0))
    as (r & Hrun & Hr).
  exists r. destruct Hr as [[-> Hle] | (i & Hi & Hlt & Hbefore & Hle)].
  - exists O. split; [exact Hrun |]. split; [reflexivity |]. split.
    + intros k [<- | Hin]; [lia | auto].
    + intros j k Hj. lia.
  - exists (S i). split; [exact Hrun |]. split; [exact Hi |]. split.
    + intros k [<- | Hin]; [lia | auto].
    + intros [| j] k Hj Hk; simpl in Hk.
      * injection Hk as <-. exact Hlt.
      * apply (Hbefore j k); [lia | exact Hk].
Qed.

Lemma most_read_book_spec_witness :
  exists r i,
    TomeRater.most_read_book world_library = (Ok r, world_library) /\
    bd_keys (tr_books world_library) !! i = Some r /\
    (forall k, In k (bd_keys (tr_books world_library)) ->
               read_count world_library k <= read_count world_library r) /\
    (forall j k, (j < i)%nat -> bd_keys (tr_books world_library) !! j = Some k ->
                 read_count world_library k < read_count world_library r).
Proof.
  apply (most_read_book_spec world_library); [discriminate | reflexivity].
Defined.

(** Emma, read twice, is the most read book of [world_library]. *)
Example most_read_book_library :
  fst (TomeRater.most_read_book world_library) = Ok 2%nat.
Proof. reflexivity. Qed.

(** ** The most positive user *)

Lemma positive_loop_spec (w : world) (values : list uref) :
  Forall (fun u => exists o, user_heap w !! u = Some o) values ->
  forall best, (exists o, user_heap w !! best = Some o) ->
  exists r,
    TomeRater.positive_loop values best w = (Ok r, w) /\
    ((r = best /\
      forall u, In u values ->
        (user_avg_at (user_heap w) u <= user_avg_at (user_heap w) best)%Q) \/
     (exists i,
        values !! i = Some r /\
        (user_avg_at (user_heap w) best < user_avg_at (user_heap w) r)%Q /\
        (forall j u, (j < i)%nat -> values !! j = Some u ->
                     (user_avg_at (user_heap w) u < user_avg_at (user_heap w) r)%Q) /\
        (forall u, In u values ->
                   (user_avg_at (user_heap w) u <= user_avg_at (user_heap w) r)%Q))).
Proof.
  induction 1 as [| u values [o Ho] Hall IH]; intros best [ob Hob].
  - exists best. split; [reflexivity |]. left. split; [reflexivity |]. intros u [].
  - simpl. run. rewrite Ho, Hob.
    assert (Hu : user_avg_at (user_heap w) u = User.get_average_rating o)
      by (unfold user_avg_at; rewrite Ho; reflexivity).
    assert (Hb : user_avg_at (user_heap w) best = User.get_average_rating ob)
      by (unfold user_avg_at; rewrite Hob; reflexivity).
    destruct (Qgtb (User.get_average_rating o) (User.get_average_rating ob)) eqn:Hcmp.
    + apply Qgtb_true in Hcmp. rewrite <- Hu, <- Hb in Hcmp.
      destruct (IH u (ex_intro _ o Ho)) as (r & Hrun & Hr).
      exists r. split; [exact Hrun |]. right.
      destruct Hr as [[-> Hle] | (i & Hi & Hlt & Hbefore & Hle)].
      * exists O. split; [reflexivity |]. split; [exact Hcmp |].
        split; [intros j u' Hj; lia |].
        intros u' [<- | Hin]; [apply Qle_refl | auto].
      * exists (S i). split; [exact Hi |].
        split; [eapply Qlt_trans; eauto |]. split.
        -- intros [| j] u' Hj Hu'; simpl in Hu'.
           ++ injection Hu' as <-. exact Hlt.
           ++ apply (Hbefore j u'); [lia | exact Hu'].
        -- intros u' [<- | Hin]; [apply Qlt_le_weak; exact Hlt | auto].
    + apply Qgtb_false in Hcmp. rewrite <- Hu, <- Hb in Hcmp.
      destruct (IH best (ex_intro _ ob Hob)) as (r & Hrun & Hr).
      exists r. split; [exact Hrun |].
      destruct Hr as [[-> Hle] | (i & Hi & Hlt & Hbefore & Hle)].
      * left. split; [reflexivity |].
        intros u' [<- | Hin]; [exact Hcmp | auto].
      * right. exists (S i). split; [exact Hi |]. split; [exact Hlt |]. split.
        -- intros [| j] u' Hj Hu'; simpl in Hu'.
           ++ injection Hu' as <-. eapply Qle_lt_trans; eauto.
           ++ apply (Hbefore j u'); [lia | exact Hu'].
        -- intros u' [<- | Hin].
           ++ apply Qlt_le_weak. eapply Qle_lt_trans; eauto.
           ++ auto.
Qed.

(** X26.  [most_positive_user] creates a reference user without books and
    returns it unless some registered user has an average rating above 0;
    in that case it returns the first registered user, in the order of
    [self.users], whose average rating is the largest.  The reference user
    is a new object and is not registered.  (Averages are compared
    exactly.) *)
Theorem most_positive_user_spec (w : world) :
  Forall (fun u => (u < length (user_heap w))%nat) (map snd (tr_users w)) ->
  exists r,
    TomeRater.most_positive_user w =
      (Ok r, mkWorld (book_heap w)
                     (user_heap w ++ [mkUser "reference_user" "mail@domain.com" []])
                     (tr_users w) (tr_books w) (stdout w)) /\
    ((r = length (user_heap w) /\
      ~ In r (map snd (tr_users w)) /\
      forall u, In u (map snd (tr_users w)) -> (user_avg_at (user_heap w) u <= 0)%Q) \/
     (exists i,
        map snd (tr_users w) !! i = Some r /\
        (0 < user_avg_at (user_heap w) r)%Q /\
        (forall j u, (j < i)%nat -> map snd (tr_users w) !! j = Some u ->
                     (user_avg_at (user_heap w) u < user_avg_at (user_heap w) r)%Q) /\
        (forall u, In u (map snd (tr_users w)) ->
                   (user_avg_at (user_heap w) u <= user_avg_at (user_heap w) r)%Q))).
Proof.
  intros Hvalid. rewrite List.Forall_forall in Hvalid.
  set (ref := mkUser "reference_user" "mail@domain.com" []).
  set (w1 := mkWorld (book_heap w) (user_heap w ++ [ref]) (tr_users w)
                     (tr_books w) (stdout w)).
  assert (Hsame : forall u, In u (map snd (tr_users w)) ->
                            user_avg_at (user_heap w1) u = user_avg_at (user_heap w) u).
  { intros u Hu. unfold user_avg_at. simpl.
    rewrite lookup_app_l by (apply Hvalid; exact Hu). reflexivity. }
  assert (Href : user_heap w1 !! length (user_heap w) = Some ref).
  { simpl. rewrite lookup_app_r by lia. rewrite Nat.sub_diag. reflexivity. }
  assert (Havg : user_avg_at (user_heap w1) (length (user_heap w)) = 0%Q)
    by (unfold user_avg_at; rewrite Href; reflexivity).
  destruct (positive_loop_spec w1 (map snd (tr_users w))) with (best := length (user_heap w))
    as (r & Hrun & Hr).
  { apply List.Forall_forall. intros u Hu. apply lookup_lt_is_Some. simpl.
    rewrite length_app. specialize (Hvalid u Hu). lia. }
  { exists ref. exact Href. }
  exists r. split.
  { unfold TomeRater.most_positive_user. run. simpl. exact Hrun. }
  destruct Hr as [[-> Hle] | (i & Hi & Hlt & Hbefore & Hle)].
  - left. split; [reflexivity |]. split.
    + intros Hin. specialize (Hvalid _ Hin). lia.
    + intros u Hu. rewrite <- (Hsame u Hu), <- Havg. auto.
  - right. exists i.
    assert (Hrin : In r (map snd (tr_users w))).
    { apply list_elem_of_In. eapply list_elem_of_lookup_2. exact Hi. }
    split; [exact Hi |]. split; [| split].
    + rewrite <- (Hsame r Hrin), <- Havg. exact Hlt.
    + intros j u Hj Hu.
      assert (Huin : In u (map snd (tr_users w))).
      { apply list_elem_of_In. eapply list_elem_of_lookup_2. exact Hu. }
      rewrite <- (Hsame u Huin), <- (Hsame r Hrin). eauto.
    + intros u Hu. rewrite <- (Hsame u Hu), <- (Hsame r Hrin). auto.
Qed.

Lemma most_positive_user_spec_witness :
  exists r,
    TomeRater.most_positive_user world_library =
      (Ok r, mkWorld (book_heap world_library)
                     (user_heap world_library
                        ++ [mkUser "reference_user" "mail@domain.com" []])
                     (tr_users world_library) (tr_books world_library)
                     (stdout world_library)) /\
    ((r = length (user_heap world_library) /\
      ~ In r (map snd (tr_users world_library)) /\
      forall u, In u (map snd (tr_users world_library)) ->
                (user_avg_at (user_heap world_library) u <= 0)%Q) \/
     (exists i,
        map snd (tr_users world_library) !! i = Some r /\
        (0 < user_avg_at (user_heap world_library) r)%Q /\
        (forall j u, (j < i)%nat -> map snd (tr_users world_library) !! j = Some u ->
                     (user_avg_at (user_heap world_library) u <
                      user_avg_at (user_heap world_library) r)%Q) /\
        (forall u, In u (map snd (tr_users world_library)) ->
                   (user_avg_at (user_heap world_library) u <=
                    user_avg_at (user_heap world_library) r)%Q))).
Proof.
  apply (most_positive_user_spec world_library).
  repeat constructor.
Defined.

(** Alice (average 3) and Bob (average 3) tie in [world_library]: the first
    registered of the two is returned. *)
Example most_positive_user_library :
  fst (TomeRater.most_positive_user world_library) = Ok 0%nat.
Proof. reflexivity. Qed.

(** ** The average rating of a user *)

Lemma count_and_sum_bounds (items : list (bref * option Z)) (acc : Z * Z) :
  Forall (fun it => valid_rating (snd it)) items ->
  0 <= fst acc -> 0 <= snd acc <= 4 * fst acc ->
  0 <= fst (fold_left (fun acc it =>
                         match snd it with
                         | None => acc
                         | Some r => (fst acc + 1, snd acc + r)
                         end) items acc) /\
  0 <= snd (fold_left (fun acc it =>
                         match snd it with
                         | None => acc
                         | Some r => (fst acc + 1, snd acc + r)
                         end) items acc)
    <= 4 * fst (fold_left (fun acc it =>
                             match snd it with
                             | None => acc
                             | Some r => (fst acc + 1, snd acc + r)
                             end) items acc).
Proof.
  intros Hall. revert acc.
  induction Hall as [| [k [r |]] items Hv Hall IH]; intros acc Hn Hs; simpl.
  - auto.
  - simpl in Hv. apply IH; simpl; lia.
  - apply IH; assumption.
Qed.

(** X27.  The average rating of a user whose recorded ratings are [None] or
    integers from 0 to 4 lies between 0 and 4. *)
Theorem user_average_bounds (uo : user_obj) :
  Forall (fun e => valid_rating (e_val e)) (books uo) ->
  (0 <= User.get_average_rating uo <= 4)%Q.
Proof.
  intros Hall.
  assert (Hitems : Forall (fun it : bref * option Z => valid_rating (snd it))
                          (bd_items (books uo))).
  { unfold bd_items. induction Hall; simpl; constructor; auto. }
  pose proof (count_and_sum_bounds _ (0, 0) Hitems) as Hb. simpl in Hb.
  specialize (Hb ltac:(lia) ltac:(lia)).
  unfold User.get_average_rating. fold (User.count_and_sum (bd_items (books uo))) in Hb.
  destruct (User.count_and_sum (bd_items (books uo))) as [nb sum]. simpl in Hb.
  destruct (nb =? 0) eqn:Hz.
  - split; [apply Qle_refl | unfold Qle; simpl; lia].
  - apply Z.eqb_neq in Hz. apply true_div_bounds; lia.
Qed.

Lemma user_average_bounds_witness :
  (0 <= User.get_average_rating user_three_books <= 4)%Q.
Proof.
  apply (user_average_bounds user_three_books).
  repeat constructor; simpl; lia.
Defined.

(** X28.  Reading a book that is not in the user's collection without rating it
    adds the book to the collection and leaves the user's average rating,
    and every book object, as they were. *)
Theorem read_book_unrated_keeps_average (u : uref) (b : bref) (w : world)
    (uo : user_obj) (bo : book_obj) :
  user_heap w !! u = Some uo ->
  book_heap w !! b = Some bo ->
  hashes_current (book_heap w) (books uo) = true ->
  bd_contains (book_heap w) (book_hash bo) b (books uo) = false ->
  exists w' uo',
    User.read_book u (PyBook b) None w = (Ok tt, w') /\
    user_heap w' !! u = Some uo' /\
    books uo' = books uo ++ [mkEntry (book_hash bo) b None] /\
    User.get_average_rating uo' = User.get_average_rating uo /\
    book_heap w' = book_heap w.
Proof.
  intros Hu Hb _ Hnew.
  rewrite (read_book_effect u b None w uo bo Hu Hb I).
  eexists _, _. split; [reflexivity |]. simpl.
  split; [apply list_lookup_insert_eq; eapply lookup_lt_Some; eauto |].
  simpl. rewrite (bd_set_absent _ _ _ _ _ Hnew).
  split; [reflexivity |]. split; [| apply list_insert_id; exact Hb].
  unfold User.get_average_rating, User.count_and_sum, bd_items. simpl.
  rewrite map_app, fold_left_app. reflexivity.
Qed.

Lemma read_book_unrated_keeps_average_witness :
  exists w' uo',
    User.read_book 1%nat (PyBook 0%nat) None world_library = (Ok tt, w') /\
    user_heap w' !! 1%nat = Some uo' /\
    books uo' = [mkEntry ("Emma", 1003) 2%nat (Some 3)] ++ [mkEntry ("Dune", 1001) 0%nat None] /\
    User.get_average_rating uo'
    = User.get_average_rating
        (mkUser "Bob" "bob@example.com" [mkEntry ("Emma", 1003) 2%nat (Some 3)]) /\
    book_heap w' = book_heap world_library.
Proof.
  apply (read_book_unrated_keeps_average 1%nat 0%nat world_library
           (mkUser "Bob" "bob@example.com" [mkEntry ("Emma", 1003) 2%nat (Some 3)])
           (mkBook "Dune" 1001 20 [4] Plain));
    reflexivity.
Defined.

(** *** The ratings recorded by users stay valid *)

Lemma add_rating_user_heap (b : bref) (rating : option Z) (w : world) :
  user_heap (snd (Book.add_rating b rating w)) = user_heap w.
Proof.
  unfold Book.add_rating, Book.check_rating_is_valid, Book.append_rating.
  destruct (Book.in_range_0_5 rating); [| reflexivity].
  destruct rating as [r |]; [| reflexivity].
  run. simpl. destruct (book_heap w !! b); reflexivity.
Qed.

Lemma user_ratings_ok_setitem (u : uref) (b : bref) (rating : option Z) :
  valid_rating rating ->
  preserves (fun w => user_ratings_ok (user_heap w)) (User.setitem_books u b rating).
Proof.
  intros Hr w Hw. unfold User.setitem_books. run. simpl.
  destruct (user_heap w !! u) as [uo |] eqn:Hu; [| exact Hw]. simpl.
  destruct (book_heap w !! b) as [bo |]; [| exact Hw]. simpl.
  unfold user_ratings_ok in *. apply Forall_insert; [exact Hw |]. simpl.
  apply (bd_set_Forall valid_rating); [| exact Hr].
  apply (Forall_lookup_1 _ _ _ _ Hw Hu).
Qed.

Ltac user_ratings_frame :=
  first
    [ match goal with
      | |- preserves _ (print _) => apply (preserves_frame user_heap user_ratings_ok); intros ?; reflexivity
      | |- preserves _ (set_book _ _) => apply (preserves_frame user_heap user_ratings_ok); intros ?; reflexivity
      | |- preserves _ (new_book _) => apply (preserves_frame user_heap user_ratings_ok); intros ?; reflexivity
      | |- preserves _ (set_tr_users _) => apply (preserves_frame user_heap user_ratings_ok); intros ?; reflexivity
      | |- preserves _ (set_tr_books _) => apply (preserves_frame user_heap user_ratings_ok); intros ?; reflexivity
      | |- preserves _ (Book.add_rating _ _) =>
          apply (preserves_frame user_heap user_ratings_ok); apply add_rating_user_heap
      end ].

Lemma user_ratings_ok_read_book (u : uref) (book : pyval) (rating : option Z) :
  preserves (fun w => user_ratings_ok (user_heap w)) (User.read_book u book rating).
Proof.
  unfold User.read_book.
  destruct book as [| b | repr]; try apply preserves_raise.
  destruct rating as [r |].
  - unfold Book.check_rating_is_valid.
    destruct (Book.in_range_0_5 (Some r)) eqn:Hin; cbn [negb].
    + apply in_range_0_5_spec in Hin.
      pres ltac:(first [apply user_ratings_ok_setitem; exact Hin | user_ratings_frame]).
    + intros w Hw. exact Hw.
  - unfold Book.check_rating_is_valid.
    pres ltac:(first [apply user_ratings_ok_setitem; exact I | user_ratings_frame]).
Qed.

Lemma user_ratings_ok_add_book_to_user (book : pyval) (e : string) (rating : option Z) :
  preserves (fun w => user_ratings_ok (user_heap w))
            (TomeRater.add_book_to_user book e rating).
Proof.
  unfold TomeRater.add_book_to_user, TomeRater.is_existing_user,
    TomeRater.check_book_in_catalog, TomeRater.contains_book,
    TomeRater.increment_books, TomeRater.setitem_books.
  pres ltac:(first [apply user_ratings_ok_read_book | user_ratings_frame]).
Qed.

Lemma user_ratings_ok_new_user (n e : string) :
  preserves (fun w => user_ratings_ok (user_heap w)) (new_user (User.init n e)).
Proof.
  intros w Hw. unfold new_user, user_ratings_ok in *. simpl.
  apply Forall_app. split; [exact Hw |]. repeat constructor.
Qed.

Lemma user_ratings_ok_set_user_email (u : uref) (a : string) :
  preserves (fun w => user_ratings_ok (user_heap w)) (User.change_email u a).
Proof.
  intros w Hw. unfold User.change_email.
  destruct (User.check_email_is_valid a); [| exact Hw].
  run. simpl. destruct (user_heap w !! u) as [uo |] eqn:Hu; [| exact Hw]. simpl.
  unfold user_ratings_ok in *. apply Forall_insert; [exact Hw |]. simpl.
  apply (Forall_lookup_1 _ _ _ _ Hw Hu).
Qed.

(** X5.  Whatever is called, with whatever arguments and however the call ends,
    every rating recorded in a user's [books] stays [None] or an integer
    from 0 to 4: [read_book] stores a rating only after the check. *)
Theorem user_ratings_stay_valid :
  (forall u book rating,
     preserves (fun w => user_ratings_ok (user_heap w)) (User.read_book u book rating)) /\
  (forall u a,
     preserves (fun w => user_ratings_ok (user_heap w)) (User.change_email u a)) /\
  (forall book e rating,
     preserves (fun w => user_ratings_ok (user_heap w))
               (TomeRater.add_book_to_user book e rating)) /\
  (forall n e user_books,
     preserves (fun w => user_ratings_ok (user_heap w))
               (TomeRater.add_user n e user_books)).
Proof.
  split; [| split; [| split]]; intros.
  - apply user_ratings_ok_read_book.
  - apply user_ratings_ok_set_user_email.
  - apply user_ratings_ok_add_book_to_user.
  - unfold TomeRater.add_user, TomeRater.is_existing_user.
    pres ltac:(first [apply user_ratings_ok_add_book_to_user
                     | apply user_ratings_ok_new_user
                     | user_ratings_frame]).
Qed.

Lemma user_ratings_stay_valid_witness :
  user_ratings_ok (user_heap world_unrated) /\
  user_ratings_ok (user_heap (snd (TomeRater.add_book_to_user (PyBook 0%nat)
                                     "alice@example.com" (Some 4) world_unrated))).
Proof.
  assert (H0 : user_ratings_ok (user_heap world_unrated)) by (repeat constructor).
  split; [exact H0 |].
  destruct user_ratings_stay_valid as (_ & _ & Hadd & _).
  apply (Hadd (PyBook 0%nat) "alice@example.com" (Some 4) world_unrated H0).
Defined.

(** ** A new user with initial books *)

Lemma bd_contains_set_same {V} (h : list book_obj) (hk : hash_t) (k : bref) (v : V)
    (d : bdict V) :
  bd_contains h hk k (bd_set h hk k v d) = true.
Proof. unfold bd_contains. rewrite bd_get_set_same. reflexivity. Qed.

(** An entry that was there is still there after [d[k] = v]. *)
Lemma bd_contains_set_mono {V} (h : list book_obj) (hk hk' : hash_t) (k k' : bref)
    (v : V) (d : bdict V) :
  bd_contains h hk' k' d = true -> bd_contains h hk' k' (bd_set h hk k v d) = true.
Proof.
  unfold bd_contains. induction d as [| e d IH]; simpl; [discriminate |].
  destruct (key_matches h hk k e) eqn:He; simpl.
  - rewrite key_matches_val. destruct (key_matches h hk' k' e); auto.
  - destruct (key_matches h hk' k' e); auto.
Qed.

Lemma bd_set_all_None (h : list book_obj) (hk : hash_t) (k : bref)
    (d : bdict (option Z)) :
  Forall (fun en => e_val en = None) d ->
  Forall (fun en => e_val en = None) (bd_set h hk k None d).
Proof.
  intros Hd. apply (bd_set_Forall (fun v => v = None)); [exact Hd | reflexivity].
Qed.

(** The loop of [add_user] over the initial books, run for a registered
    user: it ends normally, every book of the list gets an entry in the
    user's [books] and in the catalog, and every other element costs one
    printed line. *)
Lemma add_user_loop (n e : string) (l : list pyval) :
  User.check_email_is_valid e = true ->
  forall (w : world) (u : uref) (uo : user_obj),
  sd_get e (tr_users w) = Some u ->
  user_heap w !! u = Some uo ->
  book_refs_valid (book_heap w) l ->
  exists w' uo',
    for_each l
      (fun book =>
         match book with
         | PyBook _ => TomeRater.add_book_to_user book e None
         | PyNone =>
             print ("None is not a Book, it was not added to " ++ n ++ " book list")
         | PyOther repr =>
             print (repr ++ " is not a Book, it was not added to " ++ n ++ " book list")
         end) w = (Ok tt, w') /\
    book_heap w' = book_heap w /\
    tr_users w' = tr_users w /\
    user_heap w' !! u = Some uo' /\
    (forall b bo, book_heap w !! b = Some bo ->
       bd_contains (book_heap w) (book_hash bo) b (books uo) = true \/ In (PyBook b) l ->
       bd_contains (book_heap w) (book_hash bo) b (books uo') = true) /\
    (forall b bo, book_heap w !! b = Some bo ->
       bd_contains (book_heap w) (book_hash bo) b (tr_books w) = true \/ In (PyBook b) l ->
       bd_contains (book_heap w) (book_hash bo) b (tr_books w') = true) /\
    (Forall (fun en => e_val en = None) (books uo) ->
     Forall (fun en => e_val en = None) (books uo')) /\
    length (stdout w')
    = (length (stdout w) + length (List.filter (fun x => negb (is_Book x)) l))%nat.
Proof.
  intros He. induction l as [| x l IH]; intros w u uo Hreg Hu Hvalid.
  - exists w, uo. split; [reflexivity |].
    repeat (split; [reflexivity || assumption |]).
    split; [intros b bo _ [H | []]; exact H |].
    split; [intros b bo _ [H | []]; exact H |].
    split; [auto | simpl; lia].
  - inversion Hvalid as [| ? ? Hx Hl]; subst.
    assert (Hprint : forall msg,
      book_refs_valid (book_heap (put_line msg w)) l) by (intros msg; exact Hl).
    cbn [for_each]. unfold bind at 1.
    destruct x as [| b | repr].
    + unfold print at 1.
      destruct (IH (put_line ("None is not a Book, it was not added to " ++ n ++ " book list") w)
                   u uo Hreg Hu (Hprint _))
        as (w' & uo' & Hrun & Hh & Hus & Hu' & Hin & Hcat & Hnone & Hout).
      exists w', uo'. split; [exact Hrun |].
      split; [exact Hh |]. split; [exact Hus |]. split; [exact Hu' |].
      split; [intros b bo Hb [H | [H | H]]; [| discriminate |]; eapply Hin; eauto |].
      split; [intros b bo Hb [H | [H | H]]; [| discriminate |]; eapply Hcat; eauto |].
      split; [exact Hnone |].
      rewrite Hout. simpl. rewrite length_app. simpl. lia.
    + apply lookup_lt_is_Some in Hx as [bo Hb].
      rewrite (add_book_to_user_effect w e u b None uo bo He Hreg Hu Hb I).
      cbn [rated]. rewrite (list_insert_id _ _ _ Hb).
      set (uo1 := mkUser (name uo) (email uo)
                         (bd_set (book_heap w) (book_hash bo) b None (books uo))).
      set (w1 := mkWorld (book_heap w) (<[u:=uo1]> (user_heap w)) (tr_users w)
                         (bd_set (book_heap w) (book_hash bo) b (read_count w b + 1)
                                 (tr_books w))
                         (stdout w)).
      assert (Hu1 : user_heap w1 !! u = Some uo1)
        by (apply list_lookup_insert_eq; eapply lookup_lt_Some; eauto).
      destruct (IH w1 u uo1 Hreg Hu1 Hl)
        as (w' & uo' & Hrun & Hh & Hus & Hu' & Hin & Hcat & Hnone & Hout).
      exists w', uo'. split; [exact Hrun |].
      split; [exact Hh |]. split; [exact Hus |]. split; [exact Hu' |].
      split; [| split; [| split]].
      * intros b' bo' Hb' [H | [H | H]]; apply (Hin b' bo' Hb').
        -- left. apply bd_contains_set_mono. exact H.
        -- injection H as <-. rewrite Hb in Hb'. injection Hb' as <-.
           left. apply bd_contains_set_same.
        -- right. exact H.
      * intros b' bo' Hb' [H | [H | H]]; apply (Hcat b' bo' Hb').
        -- left. apply bd_contains_set_mono. exact H.
        -- injection H as <-. rewrite Hb in Hb'. injection Hb' as <-.
           left. apply bd_contains_set_same.
        -- right. exact H.
      * intros Hall. apply Hnone. apply bd_set_all_None. exact Hall.
      * rewrite Hout. simpl. lia.
    + unfold print at 1.
      destruct (IH (put_line (repr ++ " is not a Book, it was not added to " ++ n
                                   ++ " book list") w)
                   u uo Hreg Hu (Hprint _))
        as (w' & uo' & Hrun & Hh & Hus & Hu' & Hin & Hcat & Hnone & Hout).
      exists w', uo'. split; [exact Hrun |].
      split; [exact Hh |]. split; [exact Hus |]. split; [exact Hu' |].
      split; [intros b bo Hb [H | [H | H]]; [| discriminate |]; eapply Hin; eauto |].
      split; [intros b bo Hb [H | [H | H]]; [| discriminate |]; eapply Hcat; eauto |].
      split; [exact Hnone |].
      rewrite Hout. simpl. rewrite length_app. simpl. lia.
Qed.

(** X13.  [add_user] with a valid email that is not registered and a list of
    initial books never aborts: every [Book] of the list ends up, not
    rated, in the new user's collection and in the catalog; every element
    that is not a [Book] is skipped and costs one printed line; no book
    object changes. *)
Theorem add_user_with_books (w : world) (n e : string) (l : list pyval) :
  User.check_email_is_valid e = true ->
  sd_get e (tr_users w) = None ->
  book_refs_valid (book_heap w) l ->
  exists w' uo',
    TomeRater.add_user n e (Some l) w = (Ok tt, w') /\
    book_heap w' = book_heap w /\
    sd_get e (tr_users w') = Some (length (user_heap w)) /\
    user_heap w' !! length (user_heap w) = Some uo' /\
    (forall b bo, In (PyBook b) l -> book_heap w !! b = Some bo ->
       bd_contains (book_heap w) (book_hash bo) b (books uo') = true /\
       bd_contains (book_heap w) (book_hash bo) b (tr_books w') = true) /\
    Forall (fun en => e_val en = None) (books uo') /\
    length (stdout w')
    = (length (stdout w) + length (List.filter (fun x => negb (is_Book x)) l))%nat.
Proof.
  intros He Hnone Hvalid.
  set (w0 := mkWorld (book_heap w) (user_heap w ++ [User.init n e])
                     (sd_set e (length (user_heap w)) (tr_users w))
                     (tr_books w) (stdout w)).
  assert (Hreg : sd_get e (tr_users w0) = Some (length (user_heap w)))
    by apply sd_get_set_same.
  assert (Hu : user_heap w0 !! length (user_heap w) = Some (User.init n e)).
  { simpl. rewrite lookup_app_r by lia. rewrite Nat.sub_diag. reflexivity. }
  destruct (add_user_loop n e l He w0 (length (user_heap w)) (User.init n e) Hreg Hu Hvalid)
    as (w' & uo' & Hrun & Hh & Hus & Hu' & Hin & Hcat & Hnone' & Hout).
  exists w', uo'. split.
  { unfold TomeRater.add_user, TomeRater.is_existing_user. rewrite He. cbn [negb].
    unfold bind, get_tr_users, ret, new_user, set_tr_users. cbv beta iota.
    rewrite sd_contains_get, Hnone. cbv beta iota. cbn [negb]. exact Hrun. }
  split; [exact Hh |].
  split; [rewrite Hus; exact Hreg |].
  split; [exact Hu' |].
  split.
  { intros b bo Hb Hbo. split; [eapply Hin | eapply Hcat]; eauto. }
  split; [apply Hnone'; constructor | exact Hout].
Qed.

Lemma add_user_with_books_witness :
  exists w' uo',
    TomeRater.add_user "Bob" "bob@example.com" (Some [PyBook 0%nat; PyNone; PyBook 0%nat])
      world_unrated = (Ok tt, w') /\
    book_heap w' = book_heap world_unrated /\
    sd_get "bob@example.com" (tr_users w') = Some (length (user_heap world_unrated)) /\
    user_heap w' !! length (user_heap world_unrated) = Some uo' /\
    (forall b bo, In (PyBook b) [PyBook 0%nat; PyNone; PyBook 0%nat] ->
       book_heap world_unrated !! b = Some bo ->
       bd_contains (book_heap world_unrated) (book_hash bo) b (books uo') = true /\
       bd_contains (book_heap world_unrated) (book_hash bo) b (tr_books w') = true) /\
    Forall (fun en => e_val en = None) (books uo') /\
    length (stdout w')
    = (length (stdout world_unrated)
       + length (List.filter (fun x => negb (is_Book x))
                             [PyBook 0%nat; PyNone; PyBook 0%nat]))%nat.
Proof.
  apply (add_user_with_books world_unrated "Bob" "bob@example.com"
           [PyBook 0%nat; PyNone; PyBook 0%nat]);
    [reflexivity | reflexivity |].
  repeat constructor.
Defined.

(** Bob is registered with Dune read once in his collection, although the
    list names Dune twice; the catalog counts three reads of Dune. *)
Example add_user_with_books_counts :
  books_read (user_heap (snd (TomeRater.add_user "Bob" "bob@example.com"
                                (Some [PyBook 0%nat; PyNone; PyBook 0%nat])
                                world_unrated))) 1%nat = 1 /\
  read_count (snd (TomeRater.add_user "Bob" "bob@example.com"
                     (Some [PyBook 0%nat; PyNone; PyBook 0%nat])
                     world_unrated)) 0%nat = 3.
Proof. split; reflexivity. Qed.

(** ** Books as dictionary keys *)

(** X18.  Books are keys by title and isbn: when a dictionary has an entry whose
    key is a book object, a lookup with any book object of the same title
    and isbn, whatever its price, ratings or subclass, finds an entry. *)
Theorem equal_book_finds_entry {V} (h : list book_obj) (d : bdict V) (e : entry V)
    (b : bref) (o1 o2 : book_obj) :
  hashes_current h d = true ->
  In e d ->
  h !! e_key e = Some o1 ->
  h !! b = Some o2 ->
  title o1 = title o2 -> isbn o1 = isbn o2 ->
  bd_contains h (book_hash o2) b d = true.
Proof.
  intros Hcur Hin H1 H2 Ht Hi.
  unfold hashes_current in Hcur. rewrite forallb_forall in Hcur.
  specialize (Hcur e Hin). rewrite H1 in Hcur.
  assert (Hm : key_matches h (book_hash o2) b e = true).
  { unfold key_matches. rewrite H1, H2.
    assert (Hh : book_hash o1 = book_hash o2) by (unfold book_hash; congruence).
    rewrite <- Hh, Hcur. simpl.
    rewrite book_eq_hash, Hh, hash_eqb_refl. apply orb_true_r. }
  destruct (bd_get_of_match h (book_hash o2) b d e Hin Hm) as [v Hv].
  unfold bd_contains. rewrite Hv. reflexivity.
Qed.

Lemma equal_book_finds_entry_witness :
  bd_contains (book_heap world_copy) (book_hash (Book.init "Dune" 1001 8)) 1%nat
              (tr_books world_copy) = true.
Proof.
  apply (equal_book_finds_entry (book_heap world_copy) (tr_books world_copy)
           (mkEntry ("Dune", 1001) 0%nat 1) 1%nat
           (Book.init "Dune" 1001 20) (Book.init "Dune" 1001 8));
    try reflexivity.
  left. reflexivity.
Defined.

Lemma bd_set_entry {V} (h : list book_obj) (hk : hash_t) (k : bref) (v : V)
    (d : bdict V) :
  exists e', In e' (bd_set h hk k v d) /\ e_hash e' = hk /\
             (e_key e' = k \/ exists e, In e d /\ e_key e = e_key e' /\ e_hash e = hk).
Proof.
  induction d as [| e d IH]; simpl.
  - exists (mkEntry hk k v). split; [left; reflexivity |]. split; [reflexivity |].
    left. reflexivity.
  - destruct (key_matches h hk k e) eqn:He.
    + assert (Hhash : e_hash e = hk).
      { unfold key_matches in He. apply andb_true_iff in He as [He _].
        apply hash_eqb_eq in He. exact He. }
      exists (mkEntry (e_hash e) (e_key e) v).
      split; [left; reflexivity |]. split; [exact Hhash |].
      right. exists e. split; [left; reflexivity |]. split; [reflexivity | exact Hhash].
    + destruct IH as (e' & Hin & Hh & Hk). exists e'.
      split; [right; exact Hin |]. split; [exact Hh |].
      destruct Hk as [Hk | (e0 & Hin0 & Hk0 & Hh0)]; [left; exact Hk |].
      right. exists e0. split; [right; exact Hin0 |]. auto.
Qed.

(** X20.  Once a book has been read through the engine, [create_book] with its
    isbn, and any title, returns nothing: the catalog now has a book with
    that isbn. *)
Theorem create_book_after_read (w : world) (e : string) (u : uref) (b : bref)
    (rating : option Z) (uo : user_obj) (bo : book_obj) (t : string) (p : Z) :
  User.check_email_is_valid e = true ->
  sd_get e (tr_users w) = Some u ->
  user_heap w !! u = Some uo ->
  book_heap w !! b = Some bo ->
  valid_rating rating ->
  hashes_current (book_heap w) (tr_books w) = true ->
  exists w',
    TomeRater.add_book_to_user (PyBook b) e rating w = (Ok tt, w') /\
    TomeRater.create_book t (isbn bo) p w' = (Ok None, put_line "Book already exist" w').
Proof.
  intros He Hreg Hu Hb Hrating Hcur.
  rewrite (add_book_to_user_effect w e u b rating uo bo He Hreg Hu Hb Hrating).
  eexists. split; [reflexivity |].
  set (h' := <[b := rated bo rating]> (book_heap w)).
  set (d' := bd_set (book_heap w) (book_hash bo) b (read_count w b + 1) (tr_books w)).
  set (w' := mkWorld h' _ (tr_users w) d' (stdout w)).
  assert (Hblt : (b < length (book_heap w))%nat) by (eapply lookup_lt_Some; eauto).
  assert (Hlen : length h' = length (book_heap w)) by (unfold h'; apply length_insert).
  assert (Hvalid0 : keys_valid (book_heap w) (tr_books w) = true).
  { unfold keys_valid. unfold hashes_current in Hcur.
    rewrite forallb_forall in Hcur |- *. intros x Hx. specialize (Hcur x Hx).
    destruct (book_heap w !! e_key x) eqn:E; [| discriminate].
    apply Nat.ltb_lt. eapply lookup_lt_Some; eauto. }
  assert (Hvalid : keys_valid (book_heap w') (tr_books w') = true).
  { simpl. rewrite (keys_valid_length (book_heap w) h' _ Hlen).
    apply keys_valid_bd_set; assumption. }
  destruct (bd_set_entry (book_heap w) (book_hash bo) b (read_count w b + 1) (tr_books w))
    as (e' & Hin' & Hh' & Hk').
  assert (Hobj : exists o', h' !! e_key e' = Some o' /\ isbn o' = isbn bo).
  { destruct (decide (e_key e' = b)) as [Heq | Hne].
    - exists (rated bo rating). rewrite Heq. split.
      + unfold h'. apply list_lookup_insert_eq. exact Hblt.
      + pose proof (rated_hash bo rating) as Hr. unfold book_hash in Hr. congruence.
    - destruct Hk' as [Hk' | (e0 & Hin0 & Hk0 & Hh0)]; [contradiction |].
      unfold hashes_current in Hcur. rewrite forallb_forall in Hcur.
      specialize (Hcur e0 Hin0). rewrite Hk0 in Hcur.
      destruct (book_heap w !! e_key e') as [o' |] eqn:Ho'; [| discriminate].
      exists o'. split.
      + unfold h'. rewrite list_lookup_insert_ne by congruence. exact Ho'.
      + apply hash_eqb_eq in Hcur. rewrite Hh0 in Hcur.
        unfold book_hash in Hcur. congruence. }
  destruct Hobj as (o' & Ho' & Hi').
  pose proof (check_isbn_in_catalog_found w' (isbn bo) e' o' Hvalid Hin' Ho' Hi') as Hc.
  unfold TomeRater.create_book. unfold bind at 1. fold w'. rewrite Hc. reflexivity.
Qed.

Lemma create_book_after_read_witness :
  exists w',
    TomeRater.add_book_to_user (PyBook 0%nat) "alice@example.com" (Some 4) world_fresh
    = (Ok tt, w') /\
    TomeRater.create_book "Dune Messiah" (isbn (Book.init "Dune" 1001 20)) 25 w'
    = (Ok None, put_line "Book already exist" w').
Proof.
  apply (create_book_after_read world_fresh "alice@example.com" 0%nat 0%nat (Some 4)
           (User.init "Alice" "alice@example.com") (Book.init "Dune" 1001 20)
           "Dune Messiah" 25);
    try reflexivity.
  simpl. lia.
Defined.

Lemma add_user_twice_witness :
  TomeRater.add_user "Mallory" "bob@example.com" (Some [PyBook 0%nat])
    (snd (TomeRater.add_user "Bob" "bob@example.com" (Some [PyBook 0%nat; PyNone])
            world_unrated))
  = (Ok tt,
     put_line "User already exists"
       (snd (TomeRater.add_user "Bob" "bob@example.com" (Some [PyBook 0%nat; PyNone])
               world_unrated))).
Proof.
  apply (add_user_twice world_unrated "Bob" "Mallory" "bob@example.com"
           (Some [PyBook 0%nat; PyNone]) (Some [PyBook 0%nat]));
    reflexivity.
Defined.
